(** * MyLinearModel: an ordinary-least-squares estimator (initialize / fit / predict)

    Shallow embedding of the final [MyLinearModel] class of
    [exercise_codeyourownlinearregression.ipynb] (the cell that introduces the
    [fit_intercept] option) and of the numpy / statsmodels operations it calls.

    - numpy's [float64] is Rocq's primitive binary64 [float]: division by zero,
      [sqrt] of a negative number and NaN behave as IEEE 754 says;
    - a 2-D [ndarray] is a record carrying its [shape] (as [X.shape[0]] and
      [X.shape[1]] are read by the code) and its rows; a 1-D array is a list;
    - a Python exception is a value [Raise e]; the estimator object is threaded
      through [fit] and [predict] as state, so that what an interrupted call
      has already stored in [self] stays visible;
    - [np.linalg.inv] (LAPACK) is a parameter [inv] of the development; the
      closed examples instantiate it with a Gauss-Jordan elimination;
    - sums and products of arrays are accumulated from left to right; the
      order in which BLAS adds is not modelled, and the theorems hold for
      any order;
    - a second model ([obj]) keeps the arrays in a store and passes
      references, as Python does; it is shown to refine the first. *)

From Stdlib Require Import List ZArith Lia Bool PrimFloat Floats Uint63.
Import ListNotations.

Set Warnings "-inexact-float".

(** ** Exceptions *)

Inductive exn : Set :=
| LinAlgError      (* np.linalg.inv: the matrix is singular or not square *)
| ShapeMismatch    (* operands of [@] or of a broadcast do not conform *)
| EmptyReduction   (* max / min over an axis of length zero *)
| NoneOperand.     (* an operand of [@] is [None] *)

Inductive result (A : Type) : Type :=
| Ok (a : A)
| Raise (e : exn).

Arguments Ok {A} a.
Arguments Raise {A} e.

(** ** numpy *)

Module np.

(** [np.sum] of a 1-D array: left-to-right accumulation. *)
Definition sum (v : list float) : float := fold_left PrimFloat.add v 0%float.

(** Conversion of a Python [int] to [float64], as done when a [float64] is
    divided by an [int] (here a difference of two dimensions of an array,
    far below 2^63). *)
Definition of_int (z : Z) : float :=
  match z with
  | Z0 => 0%float
  | Zpos _ => of_uint63 (Uint63.of_Z z)
  | Zneg p => (- of_uint63 (Uint63.of_Z (Zpos p)))%float
  end.

(** [v.mean()]: the sum divided by the number of entries. *)
Definition mean (v : list float) : float :=
  (sum v / of_int (Z.of_nat (length v)))%float.

(** [v ** 2], [np.sqrt(v)], [v - c] on a 1-D array. *)
Definition square (v : list float) : list float :=
  map (fun x => (x * x)%float) v.

Definition sqrt (v : list float) : list float := map PrimFloat.sqrt v.

Definition sub_scalar (v : list float) (c : float) : list float :=
  map (fun x => (x - c)%float) v.

(** [a - b] on two 1-D arrays, with numpy's broadcasting of a length-1
    operand; any other pair of different lengths raises. *)
Definition sub (a b : list float) : result (list float) :=
  if length a =? length b then
    Ok (map (fun p => (fst p - snd p)%float) (combine a b))
  else match a, b with
       | [x], _ => Ok (map (fun y => (x - y)%float) b)
       | _, [y] => Ok (map (fun x => (x - y)%float) a)
       | _, _ => Raise ShapeMismatch
       end.

(** 2-D arrays. *)
Record ndarray : Set := mk_ndarray
  { shape0 : nat;              (* X.shape[0]: rows *)
    shape1 : nat;              (* X.shape[1]: columns *)
    data : list (list float) }.

(** [A[i, j]] *)
Definition item (A : ndarray) (i j : nat) : float :=
  nth j (nth i (data A) []) 0%float.

(** The array of the given shape whose entry [(i, j)] is [f i j]. *)
Definition tabulate (n m : nat) (f : nat -> nat -> float) : ndarray :=
  {| shape0 := n; shape1 := m;
     data := map (fun i => map (fun j => f i j) (seq 0 m)) (seq 0 n) |}.

(** [A[:, j]] *)
Definition column (A : ndarray) (j : nat) : list float :=
  map (fun i => item A i j) (seq 0 (shape0 A)).

(** [A.T] *)
Definition T (A : ndarray) : ndarray :=
  tabulate (shape1 A) (shape0 A) (fun i j => item A j i).

(** [A @ B] for two 2-D arrays. *)
Definition matmul (A B : ndarray) : result ndarray :=
  if shape1 A =? shape0 B then
    Ok (tabulate (shape0 A) (shape1 B) (fun i j =>
          sum (map (fun k => (item A i k * item B k j)%float)
                   (seq 0 (shape1 A)))))
  else Raise ShapeMismatch.

(** [A @ v] for a 2-D array and a 1-D array. *)
Definition matvec (A : ndarray) (v : list float) : result (list float) :=
  if shape1 A =? length v then
    Ok (map (fun i =>
          sum (map (fun k => (item A i k * nth k v 0)%float)
                   (seq 0 (shape1 A))))
        (seq 0 (shape0 A)))
  else Raise ShapeMismatch.

(** [A @ c] where [c] is an attribute that may still be [None]. *)
Definition matvec_attr (A : ndarray) (c : option (list float))
  : result (list float) :=
  match c with
  | Some v => matvec A v
  | None => Raise NoneOperand
  end.

(** [c * A] for a scalar [c]. *)
Definition scale (c : float) (A : ndarray) : ndarray :=
  tabulate (shape0 A) (shape1 A) (fun i j => (c * item A i j)%float).

(** [np.diag(A)] of a 2-D array: its main diagonal. *)
Definition diag (A : ndarray) : list float :=
  map (fun i => item A i i) (seq 0 (Nat.min (shape0 A) (shape1 A))).

(** [np.maximum] and [np.minimum]: a NaN operand is propagated. *)
Definition maximum (a b : float) : float :=
  if is_nan a then a else if is_nan b then b
  else if (a <? b)%float then b else a.

Definition minimum (a b : float) : float :=
  if is_nan a then a else if is_nan b then b
  else if (b <? a)%float then b else a.

(** [np.ptp(v)] of a column: maximum minus minimum; an empty column has
    neither. *)
Definition ptp (v : list float) : result float :=
  match v with
  | [] => Raise EmptyReduction
  | x :: r => Ok (fold_left maximum r x - fold_left minimum r x)%float
  end.

(** [np.ones((n, m))] *)
Definition ones (n m : nat) : ndarray := tabulate n m (fun _ _ => 1%float).

(** [np.hstack((A, B))] for two 2-D arrays: the columns of [A], then those
    of [B]; the numbers of rows must agree. *)
Definition hstack (A B : ndarray) : result ndarray :=
  if shape0 A =? shape0 B then
    Ok (tabulate (shape0 A) (shape1 A + shape1 B) (fun i j =>
          if j <? shape1 A then item A i j else item B i (j - shape1 A)))
  else Raise ShapeMismatch.

End np.

Import np.

(** ** statsmodels *)

Module sm.

(** The test [add_constant] applies to one column:
    [np.ptp(x, axis=0) == 0] and [np.all(x != 0.0, axis=0)]. *)
Definition is_nonzero_const (col : list float) : result bool :=
  match ptp col with
  | Ok d => Ok ((d =? 0)%float && forallb (fun x => negb (x =? 0)%float) col)
  | Raise e => Raise e
  end.

(** [is_nonzero_const.any()] over the columns; the reduction over axis 0
    raises when there is no row. *)
Definition any_nonzero_const (x : ndarray) : result bool :=
  match shape0 x with
  | O => Raise EmptyReduction
  | S _ =>
      Ok (existsb (fun j => match is_nonzero_const (column x j) with
                            | Ok b => b
                            | Raise _ => false
                            end)
                  (seq 0 (shape1 x)))
  end.

(** [np.column_stack([np.ones(x.shape[0]), x])] *)
Definition prepend_ones (x : ndarray) : ndarray :=
  tabulate (shape0 x) (S (shape1 x))
    (fun i j => match j with
                | O => 1%float
                | S j' => item x i j'
                end).

(** [sm.add_constant(x)] on a 2-D array with the defaults [prepend=True],
    [has_constant='skip']: when some column is constant and non-zero the
    array is returned as it is, otherwise a column of ones is put in front. *)
Definition add_constant (x : ndarray) : result ndarray :=
  match any_nonzero_const x with
  | Ok true => Ok x
  | Ok false => Ok (prepend_ones x)
  | Raise e => Raise e
  end.

End sm.

(** ** The estimator *)

Record MyLinearModel : Set := mk_model
  { coefficients : option (list float);
    std_errors : option (list float);
    r_squared : option float;
    fit_intercept : bool }.

(** [MyLinearModel(fit_intercept)]; [fit_intercept] defaults to [True]. *)
Definition init (fit_intercept : bool) : MyLinearModel :=
  {| coefficients := None; std_errors := None; r_squared := None;
     fit_intercept := fit_intercept |}.

(** A method body: it reads and writes [self] and returns or raises. *)
Definition method (A : Type) : Type :=
  MyLinearModel -> MyLinearModel * result A.

Definition ret {A} (a : A) : method A := fun self => (self, Ok a).

Definition bind {A B} (c : method A) (k : A -> method B) : method B :=
  fun self => match c self with
              | (self', Ok a) => k a self'
              | (self', Raise e) => (self', Raise e)
              end.

(** An expression that does not touch [self]. *)
Definition eval {A} (r : result A) : method A := fun self => (self, r).

(** Reading an attribute of [self]. *)
Definition attr {A} (f : MyLinearModel -> A) : method A :=
  fun self => (self, Ok (f self)).

(** [self.coefficients = v], [self.std_errors = v], [self.r_squared = v] *)
Definition set_coefficients (v : list float) : method unit :=
  fun self => ({| coefficients := Some v; std_errors := std_errors self;
                  r_squared := r_squared self;
                  fit_intercept := fit_intercept self |}, Ok tt).

Definition set_std_errors (v : list float) : method unit :=
  fun self => ({| coefficients := coefficients self; std_errors := Some v;
                  r_squared := r_squared self;
                  fit_intercept := fit_intercept self |}, Ok tt).

Definition set_r_squared (v : float) : method unit :=
  fun self => ({| coefficients := coefficients self;
                  std_errors := std_errors self; r_squared := Some v;
                  fit_intercept := fit_intercept self |}, Ok tt).

Declare Scope method_scope.
Delimit Scope method_scope with method.

Notation "x <- c ;; k" := (bind c (fun x => k))
  (at level 100, c at next level, right associativity) : method_scope.
Notation "c ;;; k" := (bind c (fun _ => k))
  (at level 100, right associativity) : method_scope.

Section Estimator.

(** [np.linalg.inv] *)
Variable inv : ndarray -> result ndarray.

(** [if self.fit_intercept: X = sm.add_constant(X)] *)
Definition augment (X : ndarray) : method ndarray :=
  (fi <- attr fit_intercept ;;
   if fi then eval (sm.add_constant X) else ret X)%method.

(** [MyLinearModel.fit] *)
Definition fit (X : ndarray) (y : list float) : method (list float) :=
  (X <- augment X ;;
   let X_transpose := T X in
   XtX <- eval (matmul X_transpose X) ;;
   XtX_inv <- eval (inv XtX) ;;
   P <- eval (matmul XtX_inv X_transpose) ;;
   beta <- eval (matvec P y) ;;
   set_coefficients beta ;;;
   c <- attr coefficients ;;
   y_pred <- eval (matvec_attr X c) ;;
   residuals <- eval (sub y y_pred) ;;
   let error_variance :=
     (sum (square residuals)
      / of_int (Z.of_nat (shape0 X) - Z.of_nat (shape1 X)))%float in
   XtX' <- eval (matmul X_transpose X) ;;
   XtX_inv' <- eval (inv XtX') ;;
   let var_cov_matrix := scale error_variance XtX_inv' in
   set_std_errors (np.sqrt (diag var_cov_matrix)) ;;;
   let total_variance := sum (square (sub_scalar y (mean y))) in
   set_r_squared (1 - sum (square residuals) / total_variance)%float ;;;
   ret y_pred)%method.

(** [MyLinearModel.predict] *)
Definition predict (X_test : ndarray) : method (list float) :=
  (X_test <- augment X_test ;;
   c <- attr coefficients ;;
   eval (matvec_attr X_test c))%method.

End Estimator.

(** ** A concrete inverse: Gauss-Jordan elimination with partial pivoting *)

Module gj.

Definition abs_at (c : nat) (row : list float) : float :=
  abs (nth c row 0%float).

(** Index (from [c] on) of a row whose entry in column [c] is largest in
    absolute value. *)
Fixpoint pivot_row (c : nat) (rows : list (list float)) (i best : nat)
    (bestv : float) : nat :=
  match rows with
  | [] => best
  | r :: rs =>
      if (bestv <? abs_at c r)%float
      then pivot_row c rs (S i) i (abs_at c r)
      else pivot_row c rs (S i) best bestv
  end.

Definition swap (i j : nat) (M : list (list float)) : list (list float) :=
  map (fun k => if k =? i then nth j M []
                else if k =? j then nth i M [] else nth k M [])
      (seq 0 (length M)).

Definition step (c : nat) (M : list (list float))
  : option (list (list float)) :=
  let p := pivot_row c (skipn c M) c c (abs_at c (nth c M [])) in
  let M1 := swap c p M in
  let prow := nth c M1 [] in
  let pv := nth c prow 0%float in
  if (pv =? 0)%float || is_nan pv then None
  else
    let nrow := map (fun x => (x / pv)%float) prow in
    Some (map (fun k =>
            if k =? c then nrow
            else let r := nth k M1 [] in
                 let f := nth c r 0%float in
                 map (fun q => (fst q - f * snd q)%float) (combine r nrow))
          (seq 0 (length M1))).

Fixpoint eliminate (cols : list nat) (M : list (list float))
  : option (list (list float)) :=
  match cols with
  | [] => Some M
  | c :: cs => match step c M with
               | Some M' => eliminate cs M'
               | None => None
               end
  end.

(** The inverse of a square array, or [LinAlgError]. *)
Definition inv (A : ndarray) : result ndarray :=
  if shape0 A =? shape1 A then
    let n := shape0 A in
    let aug := map (fun i =>
                 map (fun j => if j <? n then item A i j
                               else if j - n =? i then 1%float else 0%float)
                     (seq 0 (n + n)))
               (seq 0 n) in
    match eliminate (seq 0 n) aug with
    | Some R => Ok (tabulate n n (fun i j => nth (n + j) (nth i R []) 0%float))
    | None => Raise LinAlgError
    end
  else Raise LinAlgError.

End gj.

(** ** The same class over a store of array objects

    Python passes arrays by reference: the caller's X and y, the arrays the
    attributes of [self] point to and every array numpy creates are objects
    in one store.  Here [fit] and [predict] take and return references; each
    numpy operation reads its operands in the store and puts its result
    there as a new object.  ([A.T] is a view of [A]; as nothing is ever
    written through it, it is entered as an object of its own.  The
    temporaries of an expression that no name is bound to are not
    entered.) *)

Module obj.

Definition ref : Set := nat.

Record store : Set := mk_store
  { arrays1 : list (list float);     (* the 1-D arrays *)
    arrays2 : list ndarray }.        (* the 2-D arrays *)

(** The estimator object: an array attribute holds a reference or [None]. *)
Record instance : Set := mk_instance
  { coefficients : option ref;
    std_errors : option ref;
    r_squared : option float;
    fit_intercept : bool }.

Record state : Set := mk_state { self : instance; mem : store }.

(** The object a reference denotes. *)
Definition load1 (m : store) (r : ref) : list float := nth r (arrays1 m) [].

Definition load2 (m : store) (r : ref) : ndarray :=
  nth r (arrays2 m) (mk_ndarray 0 0 []).

Definition cmd (A : Type) : Type := state -> state * result A.

Definition ret {A} (a : A) : cmd A := fun s => (s, Ok a).

Definition bind {A B} (c : cmd A) (k : A -> cmd B) : cmd B :=
  fun s => match c s with
           | (s', Ok a) => k a s'
           | (s', Raise e) => (s', Raise e)
           end.

Definition eval {A} (r : result A) : cmd A := fun s => (s, r).

Definition attr {A} (f : instance -> A) : cmd A :=
  fun s => (s, Ok (f (self s))).

Definition get1 (r : ref) : cmd (list float) :=
  fun s => (s, Ok (load1 (mem s) r)).

Definition get2 (r : ref) : cmd ndarray :=
  fun s => (s, Ok (load2 (mem s) r)).

(** The state with one more array object. *)
Definition alloc1 (v : list float) (s : state) : state :=
  {| self := self s;
     mem := {| arrays1 := arrays1 (mem s) ++ [v];
               arrays2 := arrays2 (mem s) |} |}.

Definition alloc2 (A : ndarray) (s : state) : state :=
  {| self := self s;
     mem := {| arrays1 := arrays1 (mem s);
               arrays2 := arrays2 (mem s) ++ [A] |} |}.

(** A new array object and its reference. *)
Definition new1 (v : list float) : cmd ref :=
  fun s => (alloc1 v s, Ok (length (arrays1 (mem s)))).

Definition new2 (A : ndarray) : cmd ref :=
  fun s => (alloc2 A s, Ok (length (arrays2 (mem s)))).

Definition set_coefficients (r : ref) : cmd unit :=
  fun s => ({| self := {| coefficients := Some r;
                          std_errors := std_errors (self s);
                          r_squared := r_squared (self s);
                          fit_intercept := fit_intercept (self s) |};
               mem := mem s |}, Ok tt).

Definition set_std_errors (r : ref) : cmd unit :=
  fun s => ({| self := {| coefficients := coefficients (self s);
                          std_errors := Some r;
                          r_squared := r_squared (self s);
                          fit_intercept := fit_intercept (self s) |};
               mem := mem s |}, Ok tt).

Definition set_r_squared (v : float) : cmd unit :=
  fun s => ({| self := {| coefficients := coefficients (self s);
                          std_errors := std_errors (self s);
                          r_squared := Some v;
                          fit_intercept := fit_intercept (self s) |};
               mem := mem s |}, Ok tt).

Declare Scope cmd_scope.
Delimit Scope cmd_scope with cmd.

Notation "x <- c ;; k" := (bind c (fun x => k))
  (at level 100, c at next level, right associativity) : cmd_scope.
Notation "c ;;; k" := (bind c (fun _ => k))
  (at level 100, right associativity) : cmd_scope.

(** The numpy operations on references. *)
Definition T (a : ref) : cmd ref :=
  (A <- get2 a ;; new2 (np.T A))%cmd.

Definition matmul (a b : ref) : cmd ref :=
  (A <- get2 a ;; B <- get2 b ;; C <- eval (np.matmul A B) ;; new2 C)%cmd.

Definition matvec (a v : ref) : cmd ref :=
  (A <- get2 a ;; x <- get1 v ;; w <- eval (np.matvec A x) ;; new1 w)%cmd.

Definition matvec_attr (a : ref) (c : option ref) : cmd ref :=
  match c with
  | Some v => matvec a v
  | None => eval (Raise NoneOperand)
  end.

Definition sub (a b : ref) : cmd ref :=
  (x <- get1 a ;; y <- get1 b ;; e <- eval (np.sub x y) ;; new1 e)%cmd.

Definition scale (c : float) (a : ref) : cmd ref :=
  (A <- get2 a ;; new2 (np.scale c A))%cmd.

(** [np.sqrt(np.diag(a))] *)
Definition sqrt_diag (a : ref) : cmd ref :=
  (A <- get2 a ;; new1 (np.sqrt (np.diag A)))%cmd.

(** [sm.add_constant(x)]: [np.asarray(x)] is [x] itself, which is what is
    returned when a column is constant; [np.column_stack] makes a new
    array. *)
Definition add_constant (x : ref) : cmd ref :=
  (A <- get2 x ;;
   skip <- eval (sm.any_nonzero_const A) ;;
   if skip then ret x else new2 (sm.prepend_ones A))%cmd.

Section Estimator.

Variable inv : ndarray -> result ndarray.

Definition linalg_inv (a : ref) : cmd ref :=
  (A <- get2 a ;; V <- eval (inv A) ;; new2 V)%cmd.

Definition augment (X : ref) : cmd ref :=
  (fi <- attr fit_intercept ;;
   if fi then add_constant X else ret X)%cmd.

Definition fit (X y : ref) : cmd ref :=
  (X <- augment X ;;
   X_transpose <- T X ;;
   XtX <- matmul X_transpose X ;;
   XtX_inv <- linalg_inv XtX ;;
   P <- matmul XtX_inv X_transpose ;;
   beta <- matvec P y ;;
   set_coefficients beta ;;;
   c <- attr coefficients ;;
   y_pred <- matvec_attr X c ;;
   residuals <- sub y y_pred ;;
   e <- get1 residuals ;;
   A <- get2 X ;;
   let error_variance :=
     (sum (square e)
      / of_int (Z.of_nat (shape0 A) - Z.of_nat (shape1 A)))%float in
   XtX' <- matmul X_transpose X ;;
   XtX_inv' <- linalg_inv XtX' ;;
   var_cov_matrix <- scale error_variance XtX_inv' ;;
   se <- sqrt_diag var_cov_matrix ;;
   set_std_errors se ;;;
   yv <- get1 y ;;
   let total_variance := sum (square (sub_scalar yv (mean yv))) in
   set_r_squared (1 - sum (square e) / total_variance)%float ;;;
   ret y_pred)%cmd.

Definition predict (X_test : ref) : cmd ref :=
  (X_test <- augment X_test ;;
   c <- attr coefficients ;;
   matvec_attr X_test c)%cmd.

End Estimator.

(** Every object of [m] is in [m'], under the same reference. *)
Definition extends (m m' : store) : Prop :=
  exists v A,
    arrays1 m' = arrays1 m ++ v /\ arrays2 m' = arrays2 m ++ A.

(** A command that only adds objects to the store. *)
Definition allocates {A} (c : cmd A) : Prop :=
  forall s, extends (mem s) (mem (fst (c s))).

(** A command that leaves the attributes of [self] alone. *)
Definition keeps_self {A} (c : cmd A) : Prop :=
  forall s, self (fst (c s)) = self s.

(** The references held by [self] denote objects of the store. *)
Definition wf (s : state) : Prop :=
  (forall r, coefficients (self s) = Some r -> r < length (arrays1 (mem s)))
  /\
  (forall r, std_errors (self s) = Some r -> r < length (arrays1 (mem s))).

(** The estimator as the first model has it: its attributes read through
    the store. *)
Definition model (s : state) : MyLinearModel :=
  mk_model (option_map (load1 (mem s)) (coefficients (self s)))
           (option_map (load1 (mem s)) (std_errors (self s)))
           (r_squared (self s))
           (fit_intercept (self s)).

End obj.

(** ** The quantities the description of [fit] names *)

(** The array [fit] and [predict] work on after the [if self.fit_intercept]
    statement. *)
Definition design (self : MyLinearModel) (X : ndarray) : result ndarray :=
  if fit_intercept self then sm.add_constant X else Ok X.

(** beta = (X'X)^-1 X'y, multiplied from left to right. *)
Definition normal_equations (inv : ndarray -> result ndarray)
    (X_aug : ndarray) (y : list float) : result (list float) :=
  match matmul (T X_aug) X_aug with
  | Ok G => match inv G with
            | Ok V => match matmul V (T X_aug) with
                      | Ok P => matvec P y
                      | Raise e => Raise e
                      end
            | Raise e => Raise e
            end
  | Raise e => Raise e
  end.

(** sigma^2 = (sum of the squared residuals) / (n - p) *)
Definition residual_variance (e : list float) (n p : nat) : float :=
  (sum (square e) / of_int (Z.of_nat n - Z.of_nat p))%float.

(** The sum of (y - mean(y))^2 *)
Definition total_variance (y : list float) : float :=
  sum (square (sub_scalar y (mean y))).

(** The state [fit] leaves behind when it returns. *)
Definition fitted (self : MyLinearModel) (X_aug V : ndarray)
    (y beta e : list float) : MyLinearModel :=
  {| coefficients := Some beta;
     std_errors :=
       Some (np.sqrt (diag (scale
         (residual_variance e (shape0 X_aug) (shape1 X_aug)) V)));
     r_squared := Some (1 - sum (square e) / total_variance y)%float;
     fit_intercept := fit_intercept self |}.

(** What [np.linalg.inv] is assumed to do: it accepts square arrays only and
    returns an array of the same shape. *)
Definition inv_contract (inv : ndarray -> result ndarray) : Prop :=
  forall A V, inv A = Ok V ->
    shape0 A = shape1 A /\ shape0 V = shape0 A /\ shape1 V = shape1 A.

(** The estimators on which no call of [fit] has returned: a new one, and
    one on which [fit] has raised or [predict] has been called since. *)
Inductive unfitted (inv : ndarray -> result ndarray)
  : MyLinearModel -> Prop :=
| unfitted_init fi : unfitted inv (init fi)
| unfitted_fit X y self self' e :
    unfitted inv self -> fit inv X y self = (self', Raise e) ->
    unfitted inv self'
| unfitted_predict X self self' r :
    unfitted inv self -> predict X self = (self', r) ->
    unfitted inv self'.

(** The [float64] values that are not numbers of finite size: NaN and the
    two infinities. *)
Definition nonfinite (r : float) : Prop :=
  Prim2SF r = S754_nan \/ exists s, Prim2SF r = S754_infinity s.

(** ** The earlier versions of the class

    The notebook builds the class in steps, each code cell defining
    [MyLinearModel] anew.  An object has the attributes its [__init__]
    sets; a method that ends without [return] returns [None], here [tt]. *)

Module st.

(** A method body over an object of type [S]. *)
Definition method (S A : Type) : Type := S -> S * result A.

Definition ret {S A} (a : A) : method S A := fun self => (self, Ok a).

Definition bind {S A B} (c : method S A) (k : A -> method S B)
  : method S B :=
  fun self => match c self with
              | (self', Ok a) => k a self'
              | (self', Raise e) => (self', Raise e)
              end.

Definition eval {S A} (r : result A) : method S A := fun self => (self, r).

Definition attr {S A} (f : S -> A) : method S A :=
  fun self => (self, Ok (f self)).

(** An assignment to an attribute of [self]. *)
Definition assign {S} (f : S -> S) : method S unit :=
  fun self => (f self, Ok tt).

End st.

Declare Scope st_scope.
Delimit Scope st_scope with st.

Notation "x <- c ;; k" := (st.bind c (fun x => k))
  (at level 100, c at next level, right associativity) : st_scope.
Notation "c ;;; k" := (st.bind c (fun _ => k))
  (at level 100, right associativity) : st_scope.

(** Question 1: the outline, both methods being [pass]. *)
Module step1.

Record MyLinearModel : Set := mk
  { coefficients : option (list float) }.

Definition init : MyLinearModel := {| coefficients := None |}.

Definition fit (X : ndarray) (y : list float)
  : st.method MyLinearModel unit := st.ret tt.

Definition predict (X_test : ndarray) : st.method MyLinearModel unit :=
  st.ret tt.

End step1.

(** Questions 2 and 4 (the same class text twice): [fit] stores the
    coefficients. *)
Module step2.

Record MyLinearModel : Set := mk
  { coefficients : option (list float) }.

Definition init : MyLinearModel := {| coefficients := None |}.

Section Methods.

Variable inv : ndarray -> result ndarray.

Definition fit (X : ndarray) (y : list float)
  : st.method MyLinearModel unit :=
  (let intercept := ones (shape0 X) 1 in
   X <- st.eval (hstack intercept X) ;;
   let X_transpose := T X in
   XtX <- st.eval (matmul X_transpose X) ;;
   XtX_inv <- st.eval (inv XtX) ;;
   P <- st.eval (matmul XtX_inv X_transpose) ;;
   beta <- st.eval (matvec P y) ;;
   st.assign (fun self => {| coefficients := Some beta |}))%st.

Definition predict (X_test : ndarray) : st.method MyLinearModel unit :=
  st.ret tt.

End Methods.

End step2.

(** Question 5: [fit] also stores the standard errors. *)
Module step5.

Record MyLinearModel : Set := mk
  { coefficients : option (list float);
    std_errors : option (list float) }.

Definition init : MyLinearModel :=
  {| coefficients := None; std_errors := None |}.

Section Methods.

Variable inv : ndarray -> result ndarray.

Definition fit (X : ndarray) (y : list float)
  : st.method MyLinearModel unit :=
  (let intercept := ones (shape0 X) 1 in
   X <- st.eval (hstack intercept X) ;;
   let X_transpose := T X in
   XtX <- st.eval (matmul X_transpose X) ;;
   XtX_inv <- st.eval (inv XtX) ;;
   P <- st.eval (matmul XtX_inv X_transpose) ;;
   beta <- st.eval (matvec P y) ;;
   st.assign (fun self => {| coefficients := Some beta;
                             std_errors := std_errors self |}) ;;;
   c <- st.attr coefficients ;;
   y_pred <- st.eval (matvec_attr X c) ;;
   residuals <- st.eval (sub y y_pred) ;;
   let error_variance :=
     (sum (square residuals)
      / of_int (Z.of_nat (shape0 X) - Z.of_nat (shape1 X)))%float in
   XtX' <- st.eval (matmul X_transpose X) ;;
   XtX_inv' <- st.eval (inv XtX') ;;
   let var_cov_matrix := scale error_variance XtX_inv' in
   st.assign (fun self =>
     {| coefficients := coefficients self;
        std_errors := Some (np.sqrt (diag var_cov_matrix)) |}))%st.

Definition predict (X_test : ndarray) : st.method MyLinearModel unit :=
  st.ret tt.

End Methods.

End step5.

(** Questions 6 and 8: [fit] also stores R-squared (question 6, where
    [predict] is still [pass]); question 8 keeps that [fit] word for word
    and writes [predict]. *)
Module step8.

Record MyLinearModel : Set := mk
  { coefficients : option (list float);
    std_errors : option (list float);
    r_squared : option float }.

Definition init : MyLinearModel :=
  {| coefficients := None; std_errors := None; r_squared := None |}.

Section Methods.

Variable inv : ndarray -> result ndarray.

Definition fit (X : ndarray) (y : list float)
  : st.method MyLinearModel unit :=
  (let intercept := ones (shape0 X) 1 in
   X <- st.eval (hstack intercept X) ;;
   let X_transpose := T X in
   XtX <- st.eval (matmul X_transpose X) ;;
   XtX_inv <- st.eval (inv XtX) ;;
   P <- st.eval (matmul XtX_inv X_transpose) ;;
   beta <- st.eval (matvec P y) ;;
   st.assign (fun self => {| coefficients := Some beta;
                             std_errors := std_errors self;
                             r_squared := r_squared self |}) ;;;
   c <- st.attr coefficients ;;
   y_pred <- st.eval (matvec_attr X c) ;;
   residuals <- st.eval (sub y y_pred) ;;
   let error_variance :=
     (sum (square residuals)
      / of_int (Z.of_nat (shape0 X) - Z.of_nat (shape1 X)))%float in
   XtX' <- st.eval (matmul X_transpose X) ;;
   XtX_inv' <- st.eval (inv XtX') ;;
   let var_cov_matrix := scale error_variance XtX_inv' in
   st.assign (fun self =>
     {| coefficients := coefficients self;
        std_errors := Some (np.sqrt (diag var_cov_matrix));
        r_squared := r_squared self |}) ;;;
   let total_variance := sum (square (sub_scalar y (mean y))) in
   st.assign (fun self =>
     {| coefficients := coefficients self;
        std_errors := std_errors self;
        r_squared :=
          Some (1 - sum (square residuals) / total_variance)%float |}))%st.

(** Question 6: [pass]. *)
Definition predict_pass (X_test : ndarray)
  : st.method MyLinearModel unit := st.ret tt.

(** Question 8. *)
Definition predict (X_test : ndarray)
  : st.method MyLinearModel (list float) :=
  (let intercept := ones (shape0 X_test) 1 in
   X_test <- st.eval (hstack intercept X_test) ;;
   c <- st.attr coefficients ;;
   st.eval (matvec_attr X_test c))%st.

End Methods.

End step8.

(** An object of question 8 seen as one of the final class, and back. *)
Definition to_final (self : step8.MyLinearModel) (fit_intercept : bool)
  : MyLinearModel :=
  mk_model (step8.coefficients self) (step8.std_errors self)
           (step8.r_squared self) fit_intercept.

Definition of_final (self : MyLinearModel) : step8.MyLinearModel :=
  step8.mk (coefficients self) (std_errors self) (r_squared self).

(** The attributes an earlier step already has. *)
Definition step8_to_step5 (self : step8.MyLinearModel)
  : step5.MyLinearModel :=
  step5.mk (step8.coefficients self) (step8.std_errors self).

Definition step5_to_step2 (self : step5.MyLinearModel)
  : step2.MyLinearModel :=
  step2.mk (step5.coefficients self).

(** [None] for the value a method returns. *)
Definition returns_none {A} (r : result A) : result unit :=
  match r with
  | Ok _ => Ok tt
  | Raise e => Raise e
  end.

(** ** Sample data *)

Module demo.

(** Four observations of one predictor. *)
Definition X : ndarray := mk_ndarray 4 1 [[1]; [-1]; [1]; [-1]]%float.
Definition y : list float := [6; 0; 2; 0]%float.

(** The design matrix [fit] builds from [X] and the inverse of its Gram
    matrix. *)
Definition X_aug : ndarray :=
  mk_ndarray 4 2 [[1; 1]; [1; -1]; [1; 1]; [1; -1]]%float.
Definition V : ndarray := mk_ndarray 2 2 [[0.25; 0]; [0; 0.25]]%float.

(** The estimator after [fit(X, y)] with an intercept. *)
Definition model : MyLinearModel :=
  {| coefficients := Some [2; 2]%float;
     std_errors := Some [1; 1]%float;
     r_squared := Some (1 - 8 / 24)%float;
     fit_intercept := true |}.
Definition y_pred : list float := [4; 0; 4; 0]%float.

(** A store holding [y] (reference 0 among the 1-D arrays) and [X]
    (reference 0 among the 2-D arrays), and a new estimator. *)
Definition state : obj.state :=
  obj.mk_state (obj.mk_instance None None None true)
               (obj.mk_store [y] [X]).

(** Two identical predictor columns. *)
Definition X_dup : ndarray :=
  mk_ndarray 3 2 [[1; 1]; [2; 2]; [4; 4]]%float.

(** A predictor that is the constant 2. *)
Definition X_const : ndarray := mk_ndarray 2 1 [[2]; [2]]%float.

(** A predictor that is the constant 0. *)
Definition X_zero : ndarray := mk_ndarray 2 1 [[0]; [0]]%float.

(** One observation of one predictor. *)
Definition X_one : ndarray := mk_ndarray 1 1 [[1]]%float.

(** Two observations, the response being the constant 1. *)
Definition X_two : ndarray := mk_ndarray 2 1 [[1]; [2]]%float.
Definition y_ones : list float := [1; 1]%float.

(** Three observations, the response being the constant 0.1. *)
Definition X_three : ndarray := mk_ndarray 3 1 [[2]; [0]; [0]]%float.
Definition y_tenth : list float := [0.1; 0.1; 0.1]%float.

End demo.

(** ** More sample data *)

Module sample.

(** One observation of one predictor. *)
Definition X_row : ndarray := mk_ndarray 1 1 [[3]]%float.

(** No observation of one predictor. *)
Definition X_empty : ndarray := mk_ndarray 0 1 [].

End sample.

(** * Properties *)

(** ** Shapes of the numpy operations *)

Lemma item_tabulate n m f i j :
  i < n -> j < m -> item (tabulate n m f) i j = f i j.
Proof.
  intros Hi Hj. unfold item, tabulate; simpl.
  rewrite (nth_indep _ [] (map (fun j => f 0 j) (seq 0 m)))
    by (rewrite length_map, length_seq; exact Hi).
  rewrite (map_nth (fun i => map (fun j => f i j) (seq 0 m)) (seq 0 n) 0 i).
  rewrite seq_nth by exact Hi. simpl.
  rewrite (nth_indep _ 0%float (f i 0))
    by (rewrite length_map, length_seq; exact Hj).
  rewrite (map_nth (fun j => f i j) (seq 0 m) 0 j).
  rewrite seq_nth by exact Hj. reflexivity.
Qed.

Lemma matmul_Ok A B C :
  matmul A B = Ok C ->
  shape1 A = shape0 B /\ shape0 C = shape0 A /\ shape1 C = shape1 B.
Proof.
  unfold matmul. destruct (shape1 A =? shape0 B) eqn:E; [|discriminate].
  intros H; injection H as <-. apply Nat.eqb_eq in E. auto.
Qed.

Lemma matmul_conform A B :
  shape1 A = shape0 B -> exists C, matmul A B = Ok C.
Proof.
  intros H. unfold matmul. rewrite (proj2 (Nat.eqb_eq _ _) H). eauto.
Qed.

Lemma matvec_Ok A v w :
  matvec A v = Ok w -> shape1 A = length v /\ length w = shape0 A.
Proof.
  unfold matvec. destruct (shape1 A =? length v) eqn:E; [|discriminate].
  intros H; injection H as <-. apply Nat.eqb_eq in E.
  now rewrite length_map, length_seq.
Qed.

Lemma matvec_conform A v :
  shape1 A = length v -> exists w, matvec A v = Ok w.
Proof.
  intros H. unfold matvec. rewrite (proj2 (Nat.eqb_eq _ _) H). eauto.
Qed.

Lemma sub_conform a b :
  length a = length b -> exists e, sub a b = Ok e /\ length e = length a.
Proof.
  intros H. unfold sub. rewrite (proj2 (Nat.eqb_eq _ _) H).
  eexists; split; [reflexivity|].
  rewrite length_map, length_combine, <- H. apply Nat.min_id.
Qed.

Lemma diag_length A : length (diag A) = Nat.min (shape0 A) (shape1 A).
Proof. unfold diag. now rewrite length_map, length_seq. Qed.

Lemma sqrt_length v : length (np.sqrt v) = length v.
Proof. apply length_map. Qed.

Lemma nth_sqrt_diag_scale c A i :
  i < shape0 A -> i < shape1 A ->
  nth i (np.sqrt (diag (scale c A))) 0%float
  = PrimFloat.sqrt (c * item A i i)%float.
Proof.
  intros H0 H1. unfold np.sqrt, diag.
  rewrite (nth_indep _ 0%float (PrimFloat.sqrt 0))
    by (rewrite !length_map, length_seq; simpl; lia).
  rewrite map_nth.
  rewrite (nth_indep _ 0%float (item (scale c A) 0 0))
    by (rewrite length_map, length_seq; simpl; lia).
  rewrite (map_nth (fun i => item (scale c A) i i)).
  rewrite seq_nth by (simpl; lia). simpl.
  unfold scale. now rewrite item_tabulate.
Qed.

(** ** Running [fit] and [predict] *)

Ltac run :=
  unfold fit, predict, bind, eval, attr, ret,
    set_coefficients, set_std_errors, set_r_squared.

Section Runs.

Variable inv : ndarray -> result ndarray.

Lemma augment_run X self : augment X self = (self, design self X).
Proof.
  unfold augment, design, bind, attr, eval, ret.
  destruct (fit_intercept self); reflexivity.
Qed.

Lemma fit_Ok X y self self' y_pred :
  fit inv X y self = (self', Ok y_pred) <->
  exists X_aug G V P beta e,
    design self X = Ok X_aug /\
    matmul (T X_aug) X_aug = Ok G /\ inv G = Ok V /\
    matmul V (T X_aug) = Ok P /\ matvec P y = Ok beta /\
    matvec X_aug beta = Ok y_pred /\ sub y y_pred = Ok e /\
    self' = fitted self X_aug V y beta e.
Proof.
  run. rewrite augment_run. split.
  - destruct (design self X) as [X_aug|] eqn:HX; [|discriminate].
    destruct (matmul (T X_aug) X_aug) as [G|] eqn:HG; [|discriminate].
    destruct (inv G) as [V|] eqn:HV; [|discriminate].
    destruct (matmul V (T X_aug)) as [P|] eqn:HP; [|discriminate].
    destruct (matvec P y) as [beta|] eqn:Hb; [|discriminate].
    cbn [coefficients matvec_attr].
    destruct (matvec X_aug beta) as [yp|] eqn:Hy; [|discriminate].
    destruct (sub y yp) as [e|] eqn:He; [|discriminate].
    intros H. injection H as <- <-.
    exists X_aug, G, V, P, beta, e. repeat split; assumption.
  - intros (X_aug & G & V & P & beta & e & -> & HG & HV & HP & Hb & Hy & He & ->).
    rewrite HG, HV, HP, Hb. cbn [coefficients matvec_attr].
    rewrite Hy, He. reflexivity.
Qed.

End Runs.

Section Completion.

Variable inv : ndarray -> result ndarray.
Hypothesis inv_shape : inv_contract inv.

(** Shapes along the normal equations. *)
Lemma normal_equations_shapes X_aug G V P y beta :
  matmul (T X_aug) X_aug = Ok G -> inv G = Ok V ->
  matmul V (T X_aug) = Ok P -> matvec P y = Ok beta ->
  shape0 V = shape1 X_aug /\ shape1 V = shape1 X_aug /\
  length beta = shape1 X_aug /\ length y = shape0 X_aug.
Proof.
  intros HG HV HP Hb.
  apply matmul_Ok in HG as (_ & G0 & G1). cbn in G0, G1.
  apply inv_shape in HV as (_ & V0 & V1).
  apply matmul_Ok in HP as (_ & P0 & P1). cbn in P1.
  apply matvec_Ok in Hb as (Hy & Hb).
  repeat split; congruence.
Qed.

(** Once the inverse exists and [y] has one entry per row, nothing in [fit]
    raises. *)
Lemma fit_completes X y self X_aug G V :
  design self X = Ok X_aug ->
  matmul (T X_aug) X_aug = Ok G -> inv G = Ok V ->
  length y = shape0 X_aug ->
  exists beta y_pred e,
    matvec X_aug beta = Ok y_pred /\ sub y y_pred = Ok e /\
    fit inv X y self = (fitted self X_aug V y beta e, Ok y_pred).
Proof.
  intros HX HG HV Hy.
  pose proof HG as HG'. apply matmul_Ok in HG' as (_ & G0 & G1). cbn in G0, G1.
  pose proof HV as HV'. apply inv_shape in HV' as (_ & V0 & V1).
  destruct (matmul_conform V (T X_aug)) as [P HP]; [cbn; congruence|].
  pose proof HP as HP'. apply matmul_Ok in HP' as (_ & P0 & P1). cbn in P1.
  destruct (matvec_conform P y) as [beta Hb]; [congruence|].
  pose proof Hb as Hb'. apply matvec_Ok in Hb' as (_ & Lb).
  destruct (matvec_conform X_aug beta) as [yp Hyp]; [congruence|].
  pose proof Hyp as Hyp'. apply matvec_Ok in Hyp' as (_ & Lyp).
  destruct (sub_conform y yp) as (e & He & _); [congruence|].
  exists beta, yp, e. split; [exact Hyp|]. split; [exact He|].
  apply (proj2 (fit_Ok inv X y self _ yp)).
  exists X_aug, G, V, P, beta, e. repeat split; assumption.
Qed.

(** A call of [fit] that raises does so before the first assignment to
    [self]. *)
Lemma fit_Raise X y self self' ex :
  fit inv X y self = (self', Raise ex) -> self' = self.
Proof.
  run. rewrite augment_run.
  destruct (design self X) as [X_aug|] eqn:HX; [|now intros [= <-]].
  destruct (matmul (T X_aug) X_aug) as [G|] eqn:HG; [|now intros [= <-]].
  destruct (inv G) as [V|] eqn:HV; [|now intros [= <-]].
  destruct (matmul V (T X_aug)) as [P|] eqn:HP; [|now intros [= <-]].
  destruct (matvec P y) as [beta|] eqn:Hb; [|now intros [= <-]].
  destruct (normal_equations_shapes _ _ _ _ _ _ HG HV HP Hb)
    as (_ & _ & Lb & Ly).
  cbn [coefficients matvec_attr].
  destruct (matvec_conform X_aug beta) as [yp Hyp]; [congruence|].
  rewrite Hyp. pose proof Hyp as Hyp'. apply matvec_Ok in Hyp' as (_ & Lyp).
  destruct (sub_conform y yp) as (e & He & _); [congruence|].
  rewrite He. discriminate.
Qed.

End Completion.

(** ** Division by zero in [float64] *)

Lemma nonfinite_is_finite r : nonfinite r -> is_finite r = false.
Proof.
  intros H. unfold is_finite, is_nan, is_infinity.
  rewrite !FloatAxioms.eqb_spec, abs_spec.
  destruct H as [-> | [s ->]]; [reflexivity|].
  destruct s; reflexivity.
Qed.

Lemma eqb_zero_spec d :
  (d =? 0)%float = true -> exists s, Prim2SF d = S754_zero s.
Proof.
  rewrite FloatAxioms.eqb_spec. change (Prim2SF 0) with (S754_zero false).
  destruct (Prim2SF d) as [s|s| |s m e]; cbn;
    try (destruct s; discriminate); try discriminate; eauto.
Qed.

Lemma div_zero_nonfinite x d : (d =? 0)%float = true -> nonfinite (x / d).
Proof.
  intros Hd. apply eqb_zero_spec in Hd as [s Hd]. unfold nonfinite.
  rewrite FloatAxioms.div_spec, Hd.
  destruct (Prim2SF x) as [sx|sx| |sx m e]; cbn; eauto.
Qed.

Lemma one_minus_nonfinite r : nonfinite r -> nonfinite (1 - r).
Proof.
  unfold nonfinite. rewrite FloatAxioms.sub_spec.
  change (Prim2SF 1) with (S754_finite false 4503599627370496 (-52)).
  intros [-> | [s ->]]; cbn; eauto.
Qed.

Lemma mul_nonfinite a b : nonfinite a -> nonfinite (a * b).
Proof.
  unfold nonfinite. rewrite FloatAxioms.mul_spec.
  intros [-> | [s ->]]; cbn; eauto.
  destruct (Prim2SF b) as [sx|sx| |sx m e]; cbn; eauto.
Qed.

Lemma sqrt_nonfinite a : nonfinite a -> nonfinite (PrimFloat.sqrt a).
Proof.
  unfold nonfinite. rewrite FloatAxioms.sqrt_spec.
  intros [-> | [s ->]]; cbn; eauto. destruct s; eauto.
Qed.

Lemma sub_self_zero c : is_finite c = true -> (c - c =? 0)%float = true.
Proof.
  unfold is_finite, is_nan, is_infinity.
  rewrite !FloatAxioms.eqb_spec, abs_spec, FloatAxioms.sub_spec.
  change (Prim2SF 0) with (S754_zero false).
  change (Prim2SF infinity) with (S754_infinity false).
  destruct (Prim2SF c) as [s|s| |s m e]; cbn.
  - destruct s; reflexivity.
  - destruct s; discriminate.
  - discriminate.
  - intros _. unfold SF64sub, SFsub. rewrite Z.sub_diag. reflexivity.
Qed.

Lemma diag_scale_nonfinite c A i :
  nonfinite c -> i < Nat.min (shape0 A) (shape1 A) ->
  nonfinite (nth i (np.sqrt (diag (scale c A))) 0%float).
Proof.
  intros Hc Hi. rewrite nth_sqrt_diag_scale by lia.
  now apply sqrt_nonfinite, mul_nonfinite.
Qed.

(** ** The Gauss-Jordan inverse keeps shapes *)

Lemma gj_inv_contract : inv_contract gj.inv.
Proof.
  intros A V. unfold gj.inv.
  destruct (shape0 A =? shape1 A) eqn:E; [|discriminate].
  apply Nat.eqb_eq in E.
  destruct (gj.eliminate _ _); [|discriminate].
  intros [= <-]. cbn. lia.
Qed.

Example demo_design : design (init true) demo.X = Ok demo.X_aug.
Proof. vm_compute. reflexivity. Qed.

Example demo_gram_inverse :
  exists G, matmul (T demo.X_aug) demo.X_aug = Ok G /\ gj.inv G = Ok demo.V.
Proof. eexists. split; vm_compute; reflexivity. Qed.

Example demo_fit :
  fit gj.inv demo.X demo.y (init true) = (demo.model, Ok demo.y_pred).
Proof. vm_compute. reflexivity. Qed.

Example demo_fit_dup :
  fit gj.inv demo.X_dup [1; 2; 3]%float demo.model
  = (demo.model, Raise LinAlgError).
Proof. vm_compute. reflexivity. Qed.

(** ** [predict] *)

Lemma predict_run X_test self :
  predict X_test self
  = (self, match design self X_test with
           | Ok X_aug => matvec_attr X_aug (coefficients self)
           | Raise e => Raise e
           end).
Proof.
  unfold predict, bind, attr, eval. rewrite augment_run.
  destruct (design self X_test); reflexivity.
Qed.

Lemma unfitted_is_init inv self :
  inv_contract inv -> unfitted inv self -> exists fi, self = init fi.
Proof.
  intros Hinv H. induction H as [fi|X y self self' e _ IH Hfit|X self self' r _ IH Hp].
  - now exists fi.
  - apply (fit_Raise inv Hinv) in Hfit. now subst self'.
  - rewrite predict_run in Hp. injection Hp as <- _. exact IH.
Qed.

(** ** [sm.add_constant] *)

Lemma add_constant_Ok x x' :
  sm.add_constant x = Ok x' ->
  (sm.any_nonzero_const x = Ok true /\ x' = x) \/
  (sm.any_nonzero_const x = Ok false /\ x' = sm.prepend_ones x).
Proof.
  unfold sm.add_constant.
  destruct (sm.any_nonzero_const x) as [[|]|]; intros [= <-]; auto.
Qed.

Lemma maximum_same c : maximum c c = c.
Proof. unfold maximum. now destruct (is_nan c), (c <? c)%float. Qed.

Lemma minimum_same c : minimum c c = c.
Proof. unfold minimum. now destruct (is_nan c), (c <? c)%float. Qed.

Lemma fold_left_same (f : float -> float -> float) c n :
  f c c = c -> fold_left f (repeat c n) c = c.
Proof. intros H. induction n as [|n IH]; cbn; [reflexivity|]. now rewrite H. Qed.

(** A column that repeats one finite non-zero number passes the test of
    [add_constant]. *)
Lemma constant_column_is_nonzero_const c n :
  is_finite c = true -> (c =? 0)%float = false ->
  sm.is_nonzero_const (repeat c (S n)) = Ok true.
Proof.
  intros Hf Hz. unfold sm.is_nonzero_const. cbn [repeat ptp].
  rewrite (fold_left_same maximum c n (maximum_same c)).
  rewrite (fold_left_same minimum c n (minimum_same c)).
  rewrite (sub_self_zero c Hf). cbn [andb]. f_equal.
  change (c :: repeat c n) with (repeat c (S n)).
  apply forallb_forall. intros x Hx. apply repeat_spec in Hx. subst x.
  now rewrite Hz.
Qed.

Lemma nonzero_const_column_skips x j :
  j < shape1 x -> sm.is_nonzero_const (column x j) = Ok true ->
  sm.add_constant x = Ok x.
Proof.
  intros Hj Hc. unfold sm.add_constant, sm.any_nonzero_const.
  destruct (shape0 x) as [|n] eqn:E.
  - unfold column in Hc. rewrite E in Hc. discriminate.
  - replace (existsb _ _) with true; [reflexivity|].
    symmetry. apply existsb_exists. exists j. split.
    + apply in_seq. lia.
    + now rewrite Hc.
Qed.

(** The design matrix has one row per row of X. *)
Lemma design_shape0 self X X_aug :
  design self X = Ok X_aug -> shape0 X_aug = shape0 X.
Proof.
  unfold design. destruct (fit_intercept self).
  - intros H. now apply add_constant_Ok in H as [[_ ->]|[_ ->]].
  - now intros [= <-].
Qed.

Lemma normal_equations_length inv X_aug y beta :
  inv_contract inv ->
  normal_equations inv X_aug y = Ok beta -> length beta = shape1 X_aug.
Proof.
  intros Hinv. unfold normal_equations.
  destruct (matmul (T X_aug) X_aug) as [G|] eqn:HG; [|discriminate].
  destruct (inv G) as [V|] eqn:HV; [|discriminate].
  destruct (matmul V (T X_aug)) as [P|] eqn:HP; [|discriminate].
  intros Hb.
  now destruct (normal_equations_shapes inv Hinv _ _ _ _ _ _ HG HV HP Hb)
    as (_ & _ & Lb & _).
Qed.

(** What a call of [fit] that returns has stored as coefficients. *)
Lemma fit_solves_normal_equations_aux inv X y self self' y_pred :
  fit inv X y self = (self', Ok y_pred) ->
  exists X_aug beta,
    design self X = Ok X_aug /\
    normal_equations inv X_aug y = Ok beta /\
    coefficients self' = Some beta.
Proof.
  intros H.
  apply fit_Ok in H
    as (X_aug & G & V & P & beta & e & HX & HG & HV & HP & Hb & _ & _ & ->).
  exists X_aug, beta. unfold normal_equations. rewrite HG, HV, HP. auto.
Qed.

(** ** The store *)

Section Store.

Import obj.

Lemma extends_refl m : extends m m.
Proof. exists [], []. now rewrite !app_nil_r. Qed.

Lemma extends_trans m1 m2 m3 :
  extends m1 m2 -> extends m2 m3 -> extends m1 m3.
Proof.
  intros (v & A & E1 & E2) (v' & A' & E1' & E2').
  exists (v ++ v'), (A ++ A'). rewrite E1', E2', E1, E2, !app_assoc. auto.
Qed.

Lemma extends_load1 m m' r :
  extends m m' -> r < length (arrays1 m) -> load1 m' r = load1 m r.
Proof.
  intros (v & A & E1 & _) Hr. unfold load1. rewrite E1. now apply app_nth1.
Qed.

Lemma extends_load2 m m' r :
  extends m m' -> r < length (arrays2 m) -> load2 m' r = load2 m r.
Proof.
  intros (v & A & _ & E2) Hr. unfold load2. rewrite E2. now apply app_nth1.
Qed.

Lemma allocates_bind {A B} (c : cmd A) (k : A -> cmd B) :
  allocates c -> (forall a, allocates (k a)) -> allocates (obj.bind c k).
Proof.
  intros Hc Hk s. unfold obj.bind. specialize (Hc s).
  destruct (c s) as [s' [a|e]]; cbn in *; [|exact Hc].
  exact (extends_trans _ _ _ Hc (Hk a s')).
Qed.

Lemma keeps_self_bind {A B} (c : cmd A) (k : A -> cmd B) :
  keeps_self c -> (forall a, keeps_self (k a)) -> keeps_self (obj.bind c k).
Proof.
  intros Hc Hk s. unfold obj.bind. specialize (Hc s).
  destruct (c s) as [s' [a|e]]; cbn in *; [|exact Hc].
  now rewrite (Hk a s').
Qed.

Lemma allocates_still {A} (c : cmd A) :
  (forall s, mem (fst (c s)) = mem s) -> allocates c.
Proof. intros H s. rewrite H. apply extends_refl. Qed.

Lemma allocates_new1 v : allocates (new1 v).
Proof. intros s. exists [v], []. cbn. now rewrite app_nil_r. Qed.

Lemma allocates_new2 A : allocates (new2 A).
Proof. intros s. exists [], [A]. cbn. now rewrite app_nil_r. Qed.

Ltac frame :=
  repeat first
    [ apply allocates_bind; [|intro]
    | apply keeps_self_bind; [|intro]
    | apply allocates_new1 | apply allocates_new2
    | apply allocates_still; reflexivity
    | intro; reflexivity
    | match goal with
      | |- context [if ?b then _ else _] => destruct b
      | |- context [match ?c with Some _ => _ | None => _ end] => destruct c
      end
    | progress unfold obj.fit, obj.predict, obj.augment, obj.add_constant,
        obj.T, obj.matmul, obj.matvec, obj.matvec_attr, obj.sub, obj.scale,
        obj.sqrt_diag, obj.linalg_inv ].

Lemma fit_allocates inv X y : allocates (obj.fit inv X y).
Proof. frame. Qed.

Lemma predict_allocates X_test : allocates (obj.predict X_test).
Proof. frame. Qed.

Lemma predict_keeps_self X_test : keeps_self (obj.predict X_test).
Proof. frame. Qed.

(** The reference [augment] returns is the one it was given or that of a
    new object. *)
Lemma augment_ref X s s' r :
  obj.augment X s = (s', Ok r) ->
  (r = X /\ s' = s) \/ length (arrays2 (mem s)) <= r.
Proof.
  unfold obj.augment, obj.add_constant, obj.bind, obj.attr, obj.get2,
    obj.eval, obj.ret, obj.new2.
  destruct (obj.fit_intercept (self s)).
  - destruct (sm.any_nonzero_const _) as [[|]|]; intros [= <- <-]; auto.
  - intros [= <- <-]; auto.
Qed.

End Store.

(** ** The model over the store refines the model over values *)

Section Refinement.

Local Abbreviation load1 := obj.load1.
Local Abbreviation load2 := obj.load2.
Local Abbreviation mem := obj.mem.
Local Abbreviation self := obj.self.
Local Abbreviation alloc1 := obj.alloc1.
Local Abbreviation alloc2 := obj.alloc2.
Local Abbreviation arrays1 := obj.arrays1.
Local Abbreviation arrays2 := obj.arrays2.
Local Abbreviation model := obj.model.
Local Abbreviation wf := obj.wf.
Local Abbreviation extends := obj.extends.

Lemma nth_snoc {A} (l : list A) (a d : A) r :
  nth r (l ++ [a]) d = if r =? length l then a else nth r l d.
Proof.
  destruct (Nat.eqb_spec r (length l)) as [->|Hne].
  - apply nth_middle.
  - destruct (Nat.lt_ge_cases r (length l)).
    + now apply app_nth1.
    + rewrite !nth_overflow; [reflexivity|lia|rewrite length_app; cbn; lia].
Qed.

Lemma load1_alloc1 v s r :
  load1 (mem (alloc1 v s)) r
  = if r =? length (arrays1 (mem s)) then v else load1 (mem s) r.
Proof. apply nth_snoc. Qed.

Lemma load2_alloc2 A s r :
  load2 (mem (alloc2 A s)) r
  = if r =? length (arrays2 (mem s)) then A else load2 (mem s) r.
Proof. apply nth_snoc. Qed.

Lemma load1_alloc2 A s r : load1 (mem (alloc2 A s)) r = load1 (mem s) r.
Proof. reflexivity. Qed.

Lemma load2_alloc1 v s r : load2 (mem (alloc1 v s)) r = load2 (mem s) r.
Proof. reflexivity. Qed.

Lemma length1_alloc1 v s :
  length (arrays1 (mem (alloc1 v s))) = S (length (arrays1 (mem s))).
Proof. cbn. rewrite length_app. cbn. lia. Qed.

Lemma length2_alloc2 A s :
  length (arrays2 (mem (alloc2 A s))) = S (length (arrays2 (mem s))).
Proof. cbn. rewrite length_app. cbn. lia. Qed.

Lemma length1_alloc2 A s :
  length (arrays1 (mem (alloc2 A s))) = length (arrays1 (mem s)).
Proof. reflexivity. Qed.

Lemma length2_alloc1 v s :
  length (arrays2 (mem (alloc1 v s))) = length (arrays2 (mem s)).
Proof. reflexivity. Qed.

Lemma self_alloc1 v s : self (alloc1 v s) = self s.
Proof. reflexivity. Qed.
Lemma self_alloc2 A s : self (alloc2 A s) = self s.
Proof. reflexivity. Qed.

Variable inv : ndarray -> result ndarray.

Lemma obj_T_run a s :
  obj.T a s = (alloc2 (np.T (load2 (mem s) a)) s, Ok (length (arrays2 (mem s)))).
Proof. reflexivity. Qed.

Lemma obj_matmul_run a b s :
  obj.matmul a b s
  = match np.matmul (load2 (mem s) a) (load2 (mem s) b) with
    | Ok C => (alloc2 C s, Ok (length (arrays2 (mem s))))
    | Raise e => (s, Raise e)
    end.
Proof.
  unfold obj.matmul, obj.bind, obj.get2, obj.eval, obj.new2.
  now destruct (np.matmul _ _).
Qed.

Lemma obj_linalg_inv_run a s :
  obj.linalg_inv inv a s
  = match inv (load2 (mem s) a) with
    | Ok V => (alloc2 V s, Ok (length (arrays2 (mem s))))
    | Raise e => (s, Raise e)
    end.
Proof.
  unfold obj.linalg_inv, obj.bind, obj.get2, obj.eval, obj.new2.
  now destruct (inv _).
Qed.

Lemma obj_matvec_run a v s :
  obj.matvec a v s
  = match np.matvec (load2 (mem s) a) (load1 (mem s) v) with
    | Ok w => (alloc1 w s, Ok (length (arrays1 (mem s))))
    | Raise e => (s, Raise e)
    end.
Proof.
  unfold obj.matvec, obj.bind, obj.get2, obj.get1, obj.eval, obj.new1.
  now destruct (np.matvec _ _).
Qed.

Lemma obj_sub_run a b s :
  obj.sub a b s
  = match np.sub (load1 (mem s) a) (load1 (mem s) b) with
    | Ok e => (alloc1 e s, Ok (length (arrays1 (mem s))))
    | Raise e => (s, Raise e)
    end.
Proof.
  unfold obj.sub, obj.bind, obj.get1, obj.eval, obj.new1.
  now destruct (np.sub _ _).
Qed.

Lemma obj_augment_run X s :
  obj.augment X s
  = match design (model s) (load2 (mem s) X) with
    | Ok A => if obj.fit_intercept (self s) then
                match sm.any_nonzero_const (load2 (mem s) X) with
                | Ok false => (alloc2 A s, Ok (length (arrays2 (mem s))))
                | _ => (s, Ok X)
                end
              else (s, Ok X)
    | Raise e => (s, Raise e)
    end.
Proof.
  unfold obj.augment, obj.add_constant, obj.bind, obj.attr, obj.get2, obj.eval,
    obj.ret, obj.new2, design, sm.add_constant. cbn.
  destruct (obj.fit_intercept (self s)); [|reflexivity].
  now destruct (sm.any_nonzero_const _) as [[|]|].
Qed.

(** After [augment] the reference returned denotes the design matrix and
    every earlier object is where it was. *)
Lemma obj_augment_spec X s :
  X < length (arrays2 (mem s)) ->
  match obj.augment X s with
  | (s', Ok r) =>
      design (model s) (load2 (mem s) X) = Ok (load2 (mem s') r) /\
      r < length (arrays2 (mem s')) /\
      self s' = self s /\ arrays1 (mem s') = arrays1 (mem s) /\
      extends (mem s) (mem s')
  | (s', Raise e) => design (model s) (load2 (mem s) X) = Raise e /\ s' = s
  end.
Proof.
  intros HX. rewrite obj_augment_run.
  destruct (design (model s) (load2 (mem s) X)) as [A|e] eqn:HA; [|auto].
  unfold design in HA. cbn in HA.
  destruct (obj.fit_intercept (self s)).
  - unfold sm.add_constant in HA.
    destruct (sm.any_nonzero_const _) as [[|]|]; try discriminate;
      injection HA as <-.
    + repeat split; auto using extends_refl.
    + rewrite load2_alloc2, Nat.eqb_refl, length2_alloc2.
      repeat split; auto. exists [], [sm.prepend_ones (load2 (mem s) X)].
      cbn. now rewrite app_nil_r.
  - injection HA as <-. repeat split; auto using extends_refl.
Qed.



Lemma extends_alloc1 m v s : extends m (mem s) -> extends m (mem (alloc1 v s)).
Proof.
  intros H. apply (extends_trans _ _ _ H). exists [v], []. cbn.
  now rewrite app_nil_r.
Qed.

Lemma extends_alloc2 m A s : extends m (mem s) -> extends m (mem (alloc2 A s)).
Proof.
  intros H. apply (extends_trans _ _ _ H). exists [], [A]. cbn.
  now rewrite app_nil_r.
Qed.

Lemma extends_assign m i s :
  extends m (mem s) -> extends m (mem (obj.mk_state i (mem s))).
Proof. exact (fun H => H). Qed.

Lemma model_stable s s' :
  wf s -> self s' = self s -> extends (mem s) (mem s') -> model s' = model s.
Proof.
  intros [Hc Hs] E Hext. unfold obj.model. rewrite E. f_equal.
  - destruct (obj.coefficients (self s)) as [r|]; [|reflexivity]. cbn.
    f_equal. apply extends_load1; auto.
  - destruct (obj.std_errors (self s)) as [r|]; [|reflexivity]. cbn.
    f_equal. apply extends_load1; auto.
Qed.

Ltac proj :=
  cbn [obj.mem obj.self obj.coefficients obj.std_errors obj.r_squared
       obj.fit_intercept coefficients std_errors r_squared fit_intercept
       obj.matvec_attr matvec_attr option_map].

Ltac loads :=
  repeat (rewrite ?load2_alloc2, ?load1_alloc1, ?load1_alloc2, ?load2_alloc1,
            ?length1_alloc1, ?length2_alloc2, ?length1_alloc2,
            ?length2_alloc1, ?self_alloc1, ?self_alloc2;
          proj;
          repeat match goal with
                 | |- context [?a =? ?b] =>
                     first [ replace (a =? b) with true
                               by (symmetry; apply Nat.eqb_eq; lia)
                           | replace (a =? b) with false
                               by (symmetry; apply Nat.eqb_neq; lia) ]
                 end).

Ltac fail_case :=
  cbv beta iota; f_equal; symmetry;
  match goal with Hm : forall s', _ -> _ -> model s' = _ |- _ => apply Hm end;
  [reflexivity | auto 10 using extends_refl, extends_alloc1, extends_alloc2].

Ltac fail_case2 :=
  cbv beta iota; unfold obj.model; proj; loads; proj;
  match goal with Hs : forall m', _ -> option_map _ _ = _ |- _ =>
    rewrite Hs
      by auto 12 using extends_refl, extends_alloc1, extends_alloc2,
           extends_assign
  end;
  match goal with Hself : self _ = self _ |- _ => rewrite ?Hself end;
  reflexivity.

Lemma obj_fit_refines X y s :
  wf s -> X < length (arrays2 (mem s)) -> y < length (arrays1 (mem s)) ->
  match obj.fit inv X y s with
  | (s', r) =>
      fit inv (load2 (mem s) X) (load1 (mem s) y) (model s)
      = (model s', match r with
                   | Ok p => Ok (load1 (mem s') p)
                   | Raise e => Raise e
                   end)
  end.
Proof.
  intros Hwf HX Hy.
  unfold obj.fit, fit. unfold obj.bind at 1, bind at 1.
  rewrite augment_run.
  pose proof (obj_augment_spec X s HX) as Ha.
  destruct (obj.augment X s) as [s1 [r1|e]].
  2:{ destruct Ha as [-> ->]. reflexivity. }
  destruct Ha as (-> & Hr1 & Hself & H1 & Hext).
  assert (Hy1 : y < length (arrays1 (mem s1))) by now rewrite H1.
  replace (load1 (mem s) y) with (load1 (mem s1) y)
    by (unfold obj.load1; now rewrite H1).
  assert (Hm : forall s', self s' = self s1 -> extends (mem s1) (mem s') ->
                          model s' = model s).
  { intros s' E1 E2. apply model_stable; [assumption|congruence|].
    eapply extends_trans; eassumption. }
  assert (Hs : forall m', extends (mem s1) m' ->
            option_map (load1 m') (obj.std_errors (self s1))
            = option_map (load1 (mem s)) (obj.std_errors (self s))).
  { intros m' E. rewrite Hself.
    destruct Hwf as [_ Hs]. destruct (obj.std_errors (self s)) as [r|];
      [|reflexivity].
    cbn. f_equal. apply extends_load1; [|auto].
    eapply extends_trans; eassumption. }
  remember (load2 (mem s1) r1) as X_aug eqn:EX. symmetry in EX.
  remember (load1 (mem s1) y) as yv eqn:Ey. symmetry in Ey.
  unfold obj.bind, bind, eval, attr, ret, set_coefficients, set_std_errors,
    set_r_squared.
  rewrite obj_T_run. cbv beta iota. rewrite obj_matmul_run. loads. rewrite ?EX, ?Ey.
  destruct (matmul (T X_aug) X_aug) as [G|e] eqn:HG; [|fail_case].
  cbv beta iota. rewrite obj_linalg_inv_run. loads. rewrite ?EX, ?Ey.
  destruct (inv G) as [V|e] eqn:HV; [|fail_case].
  cbv beta iota. rewrite obj_matmul_run. loads. rewrite ?EX, ?Ey.
  destruct (matmul V (T X_aug)) as [P|e] eqn:HP; [|fail_case].
  cbv beta iota. rewrite obj_matvec_run. loads. rewrite ?EX, ?Ey.
  destruct (matvec P yv) as [beta|e] eqn:Hb; [|fail_case].
  cbv beta iota.
  unfold obj.set_coefficients, obj.attr. cbv beta iota. proj.
  rewrite obj_matvec_run. proj. loads. rewrite ?EX, ?Ey.
  destruct (matvec X_aug beta) as [y_pred|e] eqn:Hp; [|fail_case2].
  cbv beta iota. rewrite obj_sub_run. proj. loads. rewrite ?EX, ?Ey.
  destruct (sub yv y_pred) as [res|e] eqn:Hres; [|fail_case2].
  cbv beta iota. unfold obj.get1, obj.get2. cbv beta iota.
  rewrite obj_matmul_run. proj. loads. rewrite ?EX, ?Ey, HG.
  cbv beta iota. rewrite obj_linalg_inv_run. proj. loads. rewrite HV.
  cbv beta iota.
  unfold obj.scale, obj.sqrt_diag, obj.bind, obj.get2, obj.get1, obj.new1,
    obj.new2, obj.set_std_errors, obj.set_r_squared, obj.ret.
  cbv beta iota. proj. loads. rewrite ?EX, ?Ey.
  unfold obj.model. loads. rewrite ?Hself. reflexivity.
Qed.

Lemma obj_predict_refines X_test s :
  wf s -> X_test < length (arrays2 (mem s)) ->
  match obj.predict X_test s with
  | (s', r) =>
      predict (load2 (mem s) X_test) (model s)
      = (model s', match r with
                   | Ok p => Ok (load1 (mem s') p)
                   | Raise e => Raise e
                   end)
  end.
Proof.
  intros Hwf HX. rewrite predict_run.
  unfold obj.predict. unfold obj.bind at 1.
  pose proof (obj_augment_spec X_test s HX) as Ha.
  destruct (obj.augment X_test s) as [s1 [r1|e]].
  2:{ destruct Ha as [-> ->]. reflexivity. }
  destruct Ha as (-> & Hr1 & Hself & H1 & Hext).
  assert (Hm : forall s', self s' = self s1 -> extends (mem s1) (mem s') ->
                          model s' = model s).
  { intros s' E1 E2. apply model_stable; [assumption|congruence|].
    eapply extends_trans; eassumption. }
  unfold obj.bind, obj.attr. cbv beta iota.
  change (coefficients (model s))
    with (option_map (load1 (mem s)) (obj.coefficients (self s))).
  rewrite <- Hself.
  destruct (obj.coefficients (self s1)) as [c|] eqn:Hc; proj.
  - rewrite obj_matvec_run.
    assert (Ec : load1 (mem s) c = load1 (mem s1) c).
    { unfold obj.load1. now rewrite H1. }
    rewrite Ec. destruct (matvec _ _) as [w|e].
    + loads. apply f_equal2; [symmetry|reflexivity].
      apply Hm; auto using extends_refl, extends_alloc1.
    + apply f_equal2; [symmetry|reflexivity].
      apply Hm; auto using extends_refl.
  - apply f_equal2; [symmetry|reflexivity].
    apply Hm; auto using extends_refl.
Qed.
End Refinement.

Example demo_obj_fit :
  let call := obj.fit gj.inv 0 0 demo.state in
  obj.model (fst call) = demo.model /\
  snd call = Ok 2 /\ obj.load1 (obj.mem (fst call)) 2 = demo.y_pred /\
  obj.load2 (obj.mem (fst call)) 0 = demo.X /\
  obj.load1 (obj.mem (fst call)) 0 = demo.y.
Proof. cbv zeta. repeat split; vm_compute; reflexivity. Qed.

(** ** The claims *)

(** C1: when [fit] returns, [self.coefficients] is (X_aug' X_aug)^-1 X_aug' y
    for the design matrix X_aug it built from X, and the value returned is
    the vector of fitted values X_aug . coefficients. *)
Theorem fit_solves_normal_equations inv X y self self' y_pred :
  fit inv X y self = (self', Ok y_pred) ->
  exists X_aug beta,
    design self X = Ok X_aug /\
    normal_equations inv X_aug y = Ok beta /\
    coefficients self' = Some beta /\
    matvec X_aug beta = Ok y_pred.
Proof.
  intros H.
  apply fit_Ok in H
    as (X_aug & G & V & P & beta & e & HX & HG & HV & HP & Hb & Hy & _ & ->).
  exists X_aug, beta. unfold normal_equations. rewrite HG, HV, HP. auto.
Qed.

Lemma fit_solves_normal_equations_witness :
  fit gj.inv demo.X demo.y (init true) = (demo.model, Ok demo.y_pred) /\
  exists X_aug beta,
    design (init true) demo.X = Ok X_aug /\
    normal_equations gj.inv X_aug demo.y = Ok beta /\
    coefficients demo.model = Some beta /\
    matvec X_aug beta = Ok demo.y_pred.
Proof.
  split; [vm_compute; reflexivity|].
  apply (fit_solves_normal_equations gj.inv demo.X demo.y (init true)).
  vm_compute; reflexivity.
Defined.

(** C2, as the code has it: with [fit_intercept] true and no column of X
    passing the constant-column test of [add_constant], a call of [fit]
    that returns has used X with a column of ones in front (k+1 columns)
    and stored k+1 coefficients, the one at index 0 belonging to the column
    of ones; with [fit_intercept] false it has used X itself and stored k
    coefficients. *)
Theorem fit_design_matrix inv X y self self' y_pred :
  inv_contract inv ->
  fit inv X y self = (self', Ok y_pred) ->
  exists X_aug beta,
    design self X = Ok X_aug /\
    normal_equations inv X_aug y = Ok beta /\
    coefficients self' = Some beta /\
    if fit_intercept self then
      sm.any_nonzero_const X = Ok false ->
      X_aug = sm.prepend_ones X /\ shape1 X_aug = S (shape1 X) /\
      length beta = S (shape1 X) /\
      forall i, i < shape0 X ->
        item X_aug i 0 = 1%float /\
        forall j, j < shape1 X -> item X_aug i (S j) = item X i j
    else X_aug = X /\ length beta = shape1 X.
Proof.
  intros Hinv H.
  destruct (fit_solves_normal_equations_aux inv X y self self' y_pred H)
    as (X_aug & beta & HX & Hb & Hc).
  pose proof (normal_equations_length inv X_aug y beta Hinv Hb) as Lb.
  exists X_aug, beta. repeat (split; [assumption|]).
  unfold design in HX. destruct (fit_intercept self).
  - intros Hnone. apply add_constant_Ok in HX as [[Hany _]|[_ ->]];
      [congruence|].
    split; [reflexivity|]. split; [reflexivity|]. split; [exact Lb|].
    intros i Hi. unfold sm.prepend_ones. split.
    + rewrite item_tabulate by lia. reflexivity.
    + intros j Hj. rewrite item_tabulate by lia. reflexivity.
  - injection HX as <-. auto.
Qed.

Lemma fit_design_matrix_witness :
  fit gj.inv demo.X demo.y (init true) = (demo.model, Ok demo.y_pred) /\
  sm.any_nonzero_const demo.X = Ok false /\
  exists X_aug beta,
    design (init true) demo.X = Ok X_aug /\
    normal_equations gj.inv X_aug demo.y = Ok beta /\
    coefficients demo.model = Some beta /\
    X_aug = sm.prepend_ones demo.X /\ shape1 X_aug = 2 /\ length beta = 2.
Proof.
  split; [vm_compute; reflexivity|]. split; [vm_compute; reflexivity|].
  destruct (fit_design_matrix gj.inv demo.X demo.y (init true) demo.model
              demo.y_pred gj_inv_contract)
    as (X_aug & beta & HX & Hb & Hc & Haug); [vm_compute; reflexivity|].
  cbn [init fit_intercept] in Haug.
  destruct Haug as (E & S1 & Lb & _); [vm_compute; reflexivity|].
  exists X_aug, beta. auto 10.
Defined.

(** C2 fails as stated: X has k = 1 column, the constant 2; with
    [fit_intercept] true, [fit] uses X itself and stores one coefficient. *)
Lemma fit_intercept_without_ones_column :
  shape1 demo.X_const = 1 /\
  design (init true) demo.X_const = Ok demo.X_const /\
  fit gj.inv demo.X_const [1; 3]%float (init true)
  = ({| coefficients := Some [1]%float; std_errors := Some [0.5]%float;
        r_squared := Some 0%float; fit_intercept := true |},
     Ok [2; 2]%float).
Proof. repeat split; vm_compute; reflexivity. Qed.

(** C3: when [fit] returns, [self.std_errors] is the element-wise square
    root of the diagonal of sigma^2 (X_aug' X_aug)^-1 with
    sigma^2 = sum(e^2) / (n - p), e = y - X_aug . beta, n the number of rows
    of X and p the number of columns of X_aug; it has one entry per
    coefficient, entry [i] belonging to coefficient [i]. *)
Theorem fit_std_errors inv X y self self' y_pred :
  inv_contract inv ->
  fit inv X y self = (self', Ok y_pred) ->
  exists X_aug G V beta e se,
    design self X = Ok X_aug /\
    matmul (T X_aug) X_aug = Ok G /\ inv G = Ok V /\
    coefficients self' = Some beta /\
    matvec X_aug beta = Ok y_pred /\ sub y y_pred = Ok e /\
    let sigma2 := residual_variance e (shape0 X) (shape1 X_aug) in
    std_errors self' = Some se /\
    se = np.sqrt (diag (scale sigma2 V)) /\
    length se = length beta /\ length beta = shape1 X_aug /\
    forall i, i < shape1 X_aug ->
      nth i se 0%float = PrimFloat.sqrt (sigma2 * item V i i)%float.
Proof.
  intros Hinv H.
  apply fit_Ok in H
    as (X_aug & G & V & P & beta & e & HX & HG & HV & HP & Hb & Hy & He & ->).
  destruct (normal_equations_shapes inv Hinv _ _ _ _ _ _ HG HV HP Hb)
    as (V0 & V1 & Lb & _).
  exists X_aug, G, V, beta, e.
  rewrite <- (design_shape0 self X X_aug HX).
  eexists. repeat (split; [eassumption || reflexivity|]).
  split; [|split; [exact Lb|]].
  - rewrite sqrt_length, diag_length. cbn. lia.
  - intros i Hi. apply nth_sqrt_diag_scale; lia.
Qed.

Lemma fit_std_errors_witness :
  fit gj.inv demo.X demo.y (init true) = (demo.model, Ok demo.y_pred) /\
  exists X_aug G V beta e se,
    design (init true) demo.X = Ok X_aug /\
    matmul (T X_aug) X_aug = Ok G /\ gj.inv G = Ok V /\
    coefficients demo.model = Some beta /\
    matvec X_aug beta = Ok demo.y_pred /\ sub demo.y demo.y_pred = Ok e /\
    let sigma2 := residual_variance e (shape0 demo.X) (shape1 X_aug) in
    std_errors demo.model = Some se /\
    se = np.sqrt (diag (scale sigma2 V)) /\
    length se = length beta /\ length beta = shape1 X_aug /\
    forall i, i < shape1 X_aug ->
      nth i se 0%float = PrimFloat.sqrt (sigma2 * item V i i)%float.
Proof.
  split; [vm_compute; reflexivity|].
  apply (fit_std_errors gj.inv demo.X demo.y (init true));
    [exact gj_inv_contract | vm_compute; reflexivity].
Defined.

(** C4, as the code has it: a call of [fit] that returns has stored
    r_squared = 1 - sum(e^2) / sum((y - mean(y))^2); the division raises
    nothing, so whatever the entries of y (all identical or not) [fit]
    returns and sets the three attributes as soon as the design matrix is
    built, its Gram matrix is inverted and y has one entry per row; when
    the computed total variance is zero, r_squared is NaN or infinite. *)
Theorem fit_r_squared inv X y self :
  inv_contract inv ->
  (forall self' y_pred,
     fit inv X y self = (self', Ok y_pred) ->
     exists e r2,
       sub y y_pred = Ok e /\ r_squared self' = Some r2 /\
       r2 = (1 - sum (square e) / total_variance y)%float /\
       ((total_variance y =? 0)%float = true -> nonfinite r2)) /\
  (forall X_aug G V,
     design self X = Ok X_aug ->
     matmul (T X_aug) X_aug = Ok G -> inv G = Ok V ->
     length y = shape0 X_aug ->
     exists self' y_pred beta se r2,
       fit inv X y self = (self', Ok y_pred) /\
       coefficients self' = Some beta /\ std_errors self' = Some se /\
       r_squared self' = Some r2).
Proof.
  intros Hinv. split.
  - intros self' y_pred H.
    apply fit_Ok in H
      as (X_aug & G & V & P & beta & e & _ & _ & _ & _ & _ & _ & He & ->).
    exists e. eexists. split; [exact He|]. split; [reflexivity|].
    split; [reflexivity|].
    intros Hz. now apply one_minus_nonfinite, div_zero_nonfinite.
  - intros X_aug G V HX HG HV Ly.
    destruct (fit_completes inv Hinv X y self X_aug G V HX HG HV Ly)
      as (beta & y_pred & e & _ & _ & Hfit).
    do 5 eexists. split; [exact Hfit|]. repeat split; reflexivity.
Qed.

Lemma fit_r_squared_witness :
  let call := fit gj.inv demo.X_two demo.y_ones (init false) in
  (total_variance demo.y_ones =? 0)%float = true /\
  snd call = Ok [0.6000000000000001; 1.2000000000000002]%float /\
  r_squared (fst call) = Some neg_infinity /\
  exists r2, r_squared (fst call) = Some r2 /\ nonfinite r2.
Proof.
  cbv zeta. split; [vm_compute; reflexivity|].
  split; [vm_compute; reflexivity|]. split; [vm_compute; reflexivity|].
  destruct (fit_r_squared gj.inv demo.X_two demo.y_ones (init false)
              gj_inv_contract) as [Hr _].
  destruct (Hr (fst (fit gj.inv demo.X_two demo.y_ones (init false)))
              [0.6000000000000001; 1.2000000000000002]%float)
    as (e & r2 & _ & H2 & _ & Hnf); [vm_compute; reflexivity|].
  exists r2. split; [exact H2|]. apply Hnf. vm_compute; reflexivity.
Defined.

(** C4 fails as stated: every entry of y is 0.1, the mean of y is rounded
    to a different number, the total variance is not zero and r_squared is a
    finite number. *)
Lemma constant_response_finite_r_squared :
  let call := fit gj.inv demo.X_three demo.y_tenth (init false) in
  demo.y_tenth = repeat 0.1%float 3 /\
  (mean demo.y_tenth =? 0.1)%float = false /\
  (total_variance demo.y_tenth =? 0)%float = false /\
  snd call = Ok [0.1; 0; 0]%float /\
  option_map is_finite (r_squared (fst call)) = Some true /\
  option_map is_nan (r_squared (fst call)) = Some false.
Proof. cbv zeta. repeat split; vm_compute; reflexivity. Qed.

(** C5, as the code has it: with no more rows than columns in the design
    matrix and an invertible Gram matrix, [fit] raises nothing: it returns
    and stores coefficients and the standard errors computed with the
    denominator n - p <= 0; with n = p each of them is NaN or infinite. *)
Theorem fit_ignores_degrees_of_freedom inv X y self X_aug G V :
  inv_contract inv ->
  design self X = Ok X_aug ->
  matmul (T X_aug) X_aug = Ok G -> inv G = Ok V ->
  length y = shape0 X_aug ->
  shape0 X_aug <= shape1 X_aug ->
  exists self' y_pred beta e se,
    fit inv X y self = (self', Ok y_pred) /\
    coefficients self' = Some beta /\ sub y y_pred = Ok e /\
    std_errors self' = Some se /\
    se = np.sqrt (diag (scale
           (residual_variance e (shape0 X_aug) (shape1 X_aug)) V)) /\
    (shape0 X_aug = shape1 X_aug ->
     length se = shape1 X_aug /\
     forall i, i < shape1 X_aug -> nonfinite (nth i se 0%float)).
Proof.
  intros Hinv HX HG HV Ly _.
  destruct (fit_completes inv Hinv X y self X_aug G V HX HG HV Ly)
    as (beta & y_pred & e & _ & He & Hfit).
  pose proof HG as HG'. apply matmul_Ok in HG' as (_ & G0 & G1).
  cbn in G0, G1.
  pose proof HV as HV'. apply Hinv in HV' as (_ & V0 & V1).
  do 5 eexists. split; [exact Hfit|].
  split; [reflexivity|]. split; [exact He|]. split; [reflexivity|].
  split; [reflexivity|].
  intros Hnp. split.
  - rewrite sqrt_length, diag_length. cbn. lia.
  - intros i Hi. apply diag_scale_nonfinite; [|lia].
    unfold residual_variance. rewrite Hnp, Z.sub_diag.
    apply div_zero_nonfinite. reflexivity.
Qed.

Lemma fit_ignores_degrees_of_freedom_witness :
  shape0 demo.X_one <= shape1 demo.X_one /\
  gj.inv demo.X_one = Ok demo.X_one /\
  exists self' y_pred se,
    fit gj.inv demo.X_one [2]%float (init false) = (self', Ok y_pred) /\
    std_errors self' = Some se /\ length se = 1 /\
    nonfinite (nth 0 se 0%float).
Proof.
  split; [cbn; lia|]. split; [vm_compute; reflexivity|].
  destruct (fit_ignores_degrees_of_freedom gj.inv demo.X_one [2]%float
              (init false) demo.X_one demo.X_one demo.X_one gj_inv_contract)
    as (self' & y_pred & beta & e & se & Hfit & _ & _ & Hse & _ & Hnp);
    try solve [reflexivity | vm_compute; reflexivity | cbn; lia].
  destruct Hnp as [Lse Hnf]; [reflexivity|].
  exists self', y_pred, se. repeat split; auto.
Defined.

(** C5 fails as stated: one row, one column, an invertible Gram matrix;
    [fit] returns and stores NaN as standard error. *)
Lemma fit_without_degrees_of_freedom_returns :
  shape0 demo.X_one <= shape1 demo.X_one /\
  gj.inv demo.X_one = Ok demo.X_one /\
  fit gj.inv demo.X_one [2]%float (init false)
  = ({| coefficients := Some [2]%float; std_errors := Some [nan];
        r_squared := Some nan; fit_intercept := false |},
     Ok [2]%float).
Proof. repeat split; vm_compute; reflexivity. Qed.

(** C6: a call of [fit] that raises (a singular X_aug' X_aug among the
    causes) leaves [coefficients], [std_errors] and [r_squared] as they
    were, whatever they held; a call that returns has set all three, with as
    many standard errors as coefficients. *)
Theorem fit_all_or_nothing inv X y self self' r :
  inv_contract inv ->
  fit inv X y self = (self', r) ->
  match r with
  | Raise _ => self' = self
  | Ok _ =>
      exists beta se r2,
        coefficients self' = Some beta /\ std_errors self' = Some se /\
        r_squared self' = Some r2 /\ length se = length beta /\
        fit_intercept self' = fit_intercept self
  end.
Proof.
  intros Hinv H. destruct r as [y_pred|ex].
  - apply fit_Ok in H
      as (X_aug & G & V & P & beta & e & HX & HG & HV & HP & Hb & Hy & He & ->).
    destruct (normal_equations_shapes inv Hinv _ _ _ _ _ _ HG HV HP Hb)
      as (V0 & V1 & Lb & _).
    do 3 eexists. repeat (split; [reflexivity|]). split; [|reflexivity].
    rewrite sqrt_length, diag_length. cbn. lia.
  - exact (fit_Raise inv Hinv _ _ _ _ _ H).
Qed.

Lemma fit_all_or_nothing_witness :
  let call := fit gj.inv demo.X_dup [1; 2; 3]%float demo.model in
  snd call = Raise LinAlgError /\ fst call = demo.model.
Proof.
  split; [vm_compute; reflexivity|].
  apply (fit_all_or_nothing gj.inv demo.X_dup [1; 2; 3]%float
           demo.model _ (Raise LinAlgError));
    [exact gj_inv_contract | vm_compute; reflexivity].
Defined.

(** C7: after [fit(X, y)] has returned, [predict(X)] on the same X returns
    exactly the fitted values [fit] returned. *)
Theorem predict_reproduces_fitted_values inv X y self self' y_pred :
  fit inv X y self = (self', Ok y_pred) ->
  predict X self' = (self', Ok y_pred).
Proof.
  intros H.
  apply fit_Ok in H
    as (X_aug & G & V & P & beta & e & HX & _ & _ & _ & _ & Hy & _ & ->).
  rewrite predict_run. unfold design in *. unfold fitted at 2 3.
  cbn [fit_intercept coefficients]. rewrite HX. cbn [matvec_attr].
  now rewrite Hy.
Qed.

Lemma predict_reproduces_fitted_values_witness :
  fit gj.inv demo.X demo.y (init true) = (demo.model, Ok demo.y_pred) /\
  predict demo.X demo.model = (demo.model, Ok demo.y_pred).
Proof.
  split; [vm_compute; reflexivity|].
  apply (predict_reproduces_fitted_values gj.inv demo.X demo.y (init true)).
  vm_compute; reflexivity.
Defined.

(** C8, as the code has it: on an estimator on which no call of [fit] has
    returned, [predict] raises instead of returning a value and leaves the
    estimator as it is; there is no check of its own for an estimator that
    is not fitted: the error is the one the augmentation of X_test raises,
    if it raises, and otherwise the one of the product with coefficients
    that are still [None]. *)
Theorem predict_unfitted_raises inv self X_test :
  inv_contract inv ->
  unfitted inv self ->
  predict X_test self
  = (self, Raise match design self X_test with
                 | Ok _ => NoneOperand
                 | Raise e => e
                 end).
Proof.
  intros Hinv H. destruct (unfitted_is_init inv self Hinv H) as [fi ->].
  rewrite predict_run.
  now destruct (design (init fi) X_test) as [X_aug|e].
Qed.

Lemma predict_unfitted_raises_witness :
  unfitted gj.inv (init true) /\
  predict demo.X (init true) = (init true, Raise NoneOperand).
Proof.
  split; [constructor|].
  apply (predict_unfitted_raises gj.inv (init true) demo.X);
    [exact gj_inv_contract | constructor].
Defined.

(** C8 fails as stated: on an X_test without rows a new estimator raises
    the error of [add_constant], the very error a fitted estimator raises
    on it, which says nothing of fitting; on other inputs the error is that
    of a [None] operand of the product. *)
Lemma predict_unfitted_error_is_not_about_fitting :
  predict sample.X_empty (init true) = (init true, Raise EmptyReduction) /\
  predict sample.X_empty demo.model = (demo.model, Raise EmptyReduction) /\
  predict demo.X (init true) = (init true, Raise NoneOperand).
Proof. repeat split; vm_compute; reflexivity. Qed.

(** C9: [fit] and [predict] write to no array that exists when they are
    called: the caller's X, y and X_test denote after the call what they
    denoted before; where a column of ones is put in front it is in a new
    array; [predict] leaves every attribute of the estimator as it is. *)
Theorem calls_leave_arrays_unchanged inv X y X_test s :
  let s_fit := fst (obj.fit inv X y s) in
  let s_predict := fst (obj.predict X_test s) in
  (forall r, r < length (obj.arrays2 (obj.mem s)) ->
     obj.load2 (obj.mem s_fit) r = obj.load2 (obj.mem s) r) /\
  (forall r, r < length (obj.arrays1 (obj.mem s)) ->
     obj.load1 (obj.mem s_fit) r = obj.load1 (obj.mem s) r) /\
  (forall r, r < length (obj.arrays2 (obj.mem s)) ->
     obj.load2 (obj.mem s_predict) r = obj.load2 (obj.mem s) r) /\
  (forall r, r < length (obj.arrays1 (obj.mem s)) ->
     obj.load1 (obj.mem s_predict) r = obj.load1 (obj.mem s) r) /\
  obj.self s_predict = obj.self s /\
  (forall s' r,
     obj.augment X s = (s', Ok r) ->
     (r = X /\ s' = s) \/ length (obj.arrays2 (obj.mem s)) <= r) /\
  (forall X_value self, fst (predict X_value self) = self).
Proof.
  cbv zeta.
  pose proof (fit_allocates inv X y s) as Ef.
  pose proof (predict_allocates X_test s) as Ep.
  repeat split.
  - intros r Hr. now apply extends_load2.
  - intros r Hr. now apply extends_load1.
  - intros r Hr. now apply extends_load2.
  - intros r Hr. now apply extends_load1.
  - apply predict_keeps_self.
  - apply augment_ref.
  - intros X_value self. now rewrite predict_run.
Qed.

(** C10, as the code has it: when some column of X repeats one finite
    non-zero number, [fit] and [predict] with [fit_intercept] true use X
    itself, with its k columns; a call of [fit] that returns has stored k
    coefficients. *)
Theorem constant_column_skips_augmentation inv X j c self :
  inv_contract inv ->
  fit_intercept self = true ->
  0 < shape0 X -> j < shape1 X ->
  column X j = repeat c (shape0 X) ->
  is_finite c = true -> (c =? 0)%float = false ->
  design self X = Ok X /\
  (forall y self' y_pred,
     fit inv X y self = (self', Ok y_pred) ->
     exists beta,
       normal_equations inv X y = Ok beta /\
       coefficients self' = Some beta /\ length beta = shape1 X) /\
  predict X self = (self, matvec_attr X (coefficients self)).
Proof.
  intros Hinv Hfi Hn Hj Hcol Hf Hz.
  assert (HX : design self X = Ok X).
  { unfold design. rewrite Hfi. apply (nonzero_const_column_skips X j Hj).
    rewrite Hcol. destruct (shape0 X) as [|n]; [lia|].
    now apply constant_column_is_nonzero_const. }
  split; [exact HX|]. split.
  - intros y self' y_pred H.
    destruct (fit_solves_normal_equations_aux inv X y self self' y_pred H)
      as (X_aug & beta & HX' & Hb & Hc).
    rewrite HX in HX'. injection HX' as <-.
    exists beta. repeat (split; [assumption|]).
    exact (normal_equations_length inv X y beta Hinv Hb).
  - rewrite predict_run, HX. reflexivity.
Qed.

Lemma constant_column_skips_augmentation_witness :
  column demo.X_const 0 = repeat 2%float 2 /\
  design (init true) demo.X_const = Ok demo.X_const /\
  (forall y self' y_pred,
     fit gj.inv demo.X_const y (init true) = (self', Ok y_pred) ->
     exists beta,
       normal_equations gj.inv demo.X_const y = Ok beta /\
       coefficients self' = Some beta /\ length beta = 1) /\
  predict demo.X_const (init true) = (init true, Raise NoneOperand).
Proof.
  split; [vm_compute; reflexivity|].
  apply (constant_column_skips_augmentation gj.inv demo.X_const 0 2%float
           (init true) gj_inv_contract);
    solve [reflexivity | cbn; lia | vm_compute; reflexivity].
Defined.

(** C10 fails as stated: the only column of X has all its entries equal
    (to 0), yet a column of ones is put in front, and [fit] raises for a
    singular matrix. *)
Lemma zero_column_is_augmented :
  column demo.X_zero 0 = [0; 0]%float /\
  design (init true) demo.X_zero
  = Ok (mk_ndarray 2 2 [[1; 0]; [1; 0]]%float) /\
  fit gj.inv demo.X_zero [1; 2]%float (init true)
  = (init true, Raise LinAlgError).
Proof. repeat split; vm_compute; reflexivity. Qed.

(** * Beyond the claims: the other versions of the class, and more on the
    final one *)

(** ** [np.hstack] of a column of ones *)

Lemma tabulate_ext n m f g :
  (forall i j, i < n -> j < m -> f i j = g i j) ->
  tabulate n m f = tabulate n m g.
Proof.
  intros H. unfold tabulate. f_equal.
  apply map_ext_in. intros i Hi. apply in_seq in Hi.
  apply map_ext_in. intros j Hj. apply in_seq in Hj.
  apply H; lia.
Qed.

(** What the first two statements of the earlier [fit] and [predict]
    build is the array [add_constant] builds when it adds the column. *)
Lemma hstack_ones X :
  hstack (ones (shape0 X) 1) X = Ok (sm.prepend_ones X).
Proof.
  unfold hstack, ones, sm.prepend_ones. cbn [shape0 shape1 tabulate].
  rewrite Nat.eqb_refl. f_equal. apply tabulate_ext.
  intros i [|j] Hi Hj; cbn [Nat.ltb Nat.leb].
  - change (tabulate (shape0 X) 1 (fun _ _ : nat => 1%float))
      with (ones (shape0 X) 1).
    unfold ones. now rewrite item_tabulate by lia.
  - f_equal. lia.
Qed.

(** ** The final [fit] seen as a function of the design matrix *)

Ltac lockstep :=
  repeat match goal with
         | |- context [match ?x with Ok _ => _ | Raise _ => _ end] =>
             destruct x; cbn [coefficients matvec_attr fst snd]
         end.

(** The value [fit] returns or the error it raises, and what it stores
    when it returns, depend on [self] and X through the design matrix
    only. *)
Lemma fit_by_design inv X1 X2 y self1 self2 :
  design self1 X1 = design self2 X2 ->
  snd (fit inv X1 y self1) = snd (fit inv X2 y self2) /\
  (forall y_pred, snd (fit inv X1 y self1) = Ok y_pred ->
     coefficients (fst (fit inv X1 y self1))
     = coefficients (fst (fit inv X2 y self2)) /\
     std_errors (fst (fit inv X1 y self1))
     = std_errors (fst (fit inv X2 y self2)) /\
     r_squared (fst (fit inv X1 y self1))
     = r_squared (fst (fit inv X2 y self2))).
Proof.
  intros H. run. rewrite !augment_run, H.
  lockstep; cbn; auto; try (split; [reflexivity|discriminate]).
Qed.

(** The same, with the attributes [fit] finds: also a call that raises
    leaves the same attributes behind. *)
Lemma fit_by_design_attrs inv X1 X2 y self1 self2 :
  design self1 X1 = design self2 X2 ->
  of_final self1 = of_final self2 ->
  of_final (fst (fit inv X1 y self1)) = of_final (fst (fit inv X2 y self2)) /\
  snd (fit inv X1 y self1) = snd (fit inv X2 y self2).
Proof.
  intros H [= Hc Hs Hr]. run. rewrite !augment_run, H.
  lockstep; unfold of_final; cbn; rewrite ?Hc, ?Hs, ?Hr; auto.
Qed.

(** ** The earlier versions *)

Ltac run_st :=
  unfold step2.fit, step5.fit, step8.fit, step8.predict,
    st.bind, st.eval, st.attr, st.assign, st.ret;
  cbv zeta; rewrite ?hstack_ones.

Lemma to_final_design self X :
  design (to_final self false) X = Ok X.
Proof. reflexivity. Qed.

Lemma step8_fit_sim inv X y self :
  step8.fit inv X y self
  = (of_final (fst (fit inv (sm.prepend_ones X) y (to_final self false))),
     returns_none (snd (fit inv (sm.prepend_ones X) y (to_final self false)))).
Proof.
  run_st. run. rewrite augment_run, to_final_design.
  destruct self as [c se r2]. unfold to_final, of_final, returns_none.
  cbn [step8.coefficients step8.std_errors step8.r_squared].
  lockstep; cbn; reflexivity.
Qed.

(** What a call of the earlier [fit] that returns has computed. *)
Lemma step8_fit_Ok inv X y self self' :
  step8.fit inv X y self = (self', Ok tt) ->
  exists G V P beta y_pred e,
    let X_aug := sm.prepend_ones X in
    matmul (T X_aug) X_aug = Ok G /\ inv G = Ok V /\
    matmul V (T X_aug) = Ok P /\ matvec P y = Ok beta /\
    matvec X_aug beta = Ok y_pred /\ sub y y_pred = Ok e /\
    self' = of_final (fitted (to_final self false) X_aug V y beta e).
Proof.
  rewrite step8_fit_sim.
  destruct (fit inv (sm.prepend_ones X) y (to_final self false))
    as [m [yp|ex]] eqn:Hfit; cbn [fst snd returns_none]; [|discriminate].
  intros [= <-].
  apply fit_Ok in Hfit
    as (X_aug & G & V & P & beta & e & HX & HG & HV & HP & Hb & Hy & He & ->).
  rewrite to_final_design in HX. injection HX as <-.
  exists G, V, P, beta, yp, e. cbv zeta. auto 10.
Qed.

Lemma step8_fit_Raise inv X y self self' ex :
  inv_contract inv ->
  step8.fit inv X y self = (self', Raise ex) -> self' = self.
Proof.
  intros Hinv. rewrite step8_fit_sim.
  destruct (fit inv (sm.prepend_ones X) y (to_final self false))
    as [m [yp|ex']] eqn:Hfit; cbn [fst snd returns_none]; [discriminate|].
  intros [= <- _]. apply (fit_Raise inv Hinv) in Hfit. subst m.
  now destruct self.
Qed.

Lemma step8_predict_run X_test self :
  step8.predict X_test self
  = (self, matvec_attr (sm.prepend_ones X_test) (step8.coefficients self)).
Proof. run_st. now destruct (matvec_attr _ _). Qed.

(** X1: the [fit] of questions 6 and 8 is the final [fit] without
    intercept applied to X with a column of ones in front: the same
    attributes are stored, the same error is raised at the same point;
    only the value returned differs ([None] for the fitted values). *)
Theorem hstack_fit_is_fit_on_augmented inv X y self :
  step8.fit inv X y self
  = (of_final (fst (fit inv (sm.prepend_ones X) y (to_final self false))),
     returns_none (snd (fit inv (sm.prepend_ones X) y (to_final self false)))).
Proof. exact (step8_fit_sim inv X y self). Qed.

(** X2: in questions 6 and 8 [fit] always works on X with a column of ones
    in front, whatever the columns of X are: a call that returns has stored
    the solution of the normal equations of that matrix, k+1 coefficients,
    the one at index 0 belonging to the column of ones. *)
Theorem hstack_fit_always_augments inv X y self self' :
  inv_contract inv ->
  step8.fit inv X y self = (self', Ok tt) ->
  exists beta,
    normal_equations inv (sm.prepend_ones X) y = Ok beta /\
    step8.coefficients self' = Some beta /\
    length beta = S (shape1 X) /\
    forall i, i < shape0 X ->
      item (sm.prepend_ones X) i 0 = 1%float /\
      forall j, j < shape1 X ->
        item (sm.prepend_ones X) i (S j) = item X i j.
Proof.
  intros Hinv H.
  apply step8_fit_Ok in H
    as (G & V & P & beta & yp & e & HG & HV & HP & Hb & _ & _ & ->).
  assert (Hn : normal_equations inv (sm.prepend_ones X) y = Ok beta).
  { unfold normal_equations. now rewrite HG, HV, HP. }
  exists beta. split; [exact Hn|]. split; [reflexivity|].
  split; [exact (normal_equations_length inv _ y beta Hinv Hn)|].
  intros i Hi. unfold sm.prepend_ones. split.
  - now rewrite item_tabulate by lia.
  - intros j Hj. now rewrite item_tabulate by lia.
Qed.

Lemma hstack_fit_always_augments_witness :
  step8.fit gj.inv demo.X demo.y step8.init = (of_final demo.model, Ok tt) /\
  exists beta,
    normal_equations gj.inv (sm.prepend_ones demo.X) demo.y = Ok beta /\
    step8.coefficients (of_final demo.model) = Some beta /\
    length beta = 2.
Proof.
  split; [vm_compute; reflexivity|].
  destruct (hstack_fit_always_augments gj.inv demo.X demo.y step8.init
              (of_final demo.model) gj_inv_contract)
    as (beta & Hn & Hc & Lb & _); [vm_compute; reflexivity|].
  exists beta. auto.
Defined.

(** X5: [predict] of question 8 never changes the estimator; with stored
    coefficients [beta] it returns the product of X_test, a column of ones
    in front, with [beta], one value per row of X_test, for every number
    of rows, when X_test has [len(beta) - 1] columns; it raises a shape
    error for any other number of columns, and the error of a [None]
    operand when [fit] has stored nothing yet. *)
Theorem hstack_predict_cases X_test self :
  match step8.coefficients self with
  | None => step8.predict X_test self = (self, Raise NoneOperand)
  | Some beta =>
      if length beta =? S (shape1 X_test) then
        exists w,
          step8.predict X_test self = (self, Ok w) /\
          matvec (sm.prepend_ones X_test) beta = Ok w /\
          length w = shape0 X_test
      else step8.predict X_test self = (self, Raise ShapeMismatch)
  end.
Proof.
  rewrite step8_predict_run.
  destruct (step8.coefficients self) as [beta|]; [|reflexivity].
  cbn [matvec_attr].
  destruct (Nat.eqb_spec (length beta) (S (shape1 X_test))) as [E|E].
  - destruct (matvec_conform (sm.prepend_ones X_test) beta) as [w Hw];
      [now rewrite E|].
    exists w. rewrite Hw. split; [reflexivity|]. split; [reflexivity|].
    now apply matvec_Ok in Hw as [_ Lw].
  - unfold matvec. cbn [sm.prepend_ones tabulate shape1].
    destruct (Nat.eqb_spec (S (shape1 X_test)) (length beta)); [lia|].
    reflexivity.
Qed.

(** X6: in question 8, after [fit(X, y)] has returned, [predict(X)] returns
    the fitted values, one per row of X, from which [fit] took the
    residuals behind the R-squared it stored. *)
Theorem hstack_predict_after_fit inv X y self self' :
  step8.fit inv X y self = (self', Ok tt) ->
  exists y_pred e,
    step8.predict X self' = (self', Ok y_pred) /\
    length y_pred = shape0 X /\ sub y y_pred = Ok e /\
    step8.r_squared self'
    = Some (1 - sum (square e) / total_variance y)%float.
Proof.
  intros H.
  apply step8_fit_Ok in H
    as (G & V & P & beta & yp & e & _ & _ & _ & _ & Hy & He & ->).
  exists yp, e. rewrite step8_predict_run.
  cbn [of_final fitted coefficients step8.coefficients matvec_attr
       step8.r_squared r_squared].
  rewrite Hy. apply matvec_Ok in Hy as [_ Ly]. auto.
Qed.

Lemma hstack_predict_after_fit_witness :
  step8.fit gj.inv demo.X demo.y step8.init = (of_final demo.model, Ok tt) /\
  exists y_pred e,
    step8.predict demo.X (of_final demo.model)
    = (of_final demo.model, Ok y_pred) /\
    length y_pred = 4 /\ sub demo.y y_pred = Ok e /\
    step8.r_squared (of_final demo.model)
    = Some (1 - sum (square e) / total_variance demo.y)%float.
Proof.
  split; [vm_compute; reflexivity|].
  apply (hstack_predict_after_fit gj.inv demo.X demo.y step8.init).
  vm_compute; reflexivity.
Defined.

Ltac lockstep_st :=
  repeat match goal with
         | |- context [match ?x with Ok _ => _ | Raise _ => _ end] =>
             destruct x;
             cbn [step5.coefficients step8.coefficients matvec_attr fst snd]
         end.

(** X3: storing R-squared (question 6) changed nothing in what question 5
    does: on the same X and y both versions of [fit] raise the same error
    or both return, and they leave the same coefficients and standard
    errors. *)
Theorem r_squared_step_keeps_earlier_attributes inv X y self :
  step5.fit inv X y (step8_to_step5 self)
  = (step8_to_step5 (fst (step8.fit inv X y self)),
     snd (step8.fit inv X y self)).
Proof.
  run_st. destruct self as [c se r2]. unfold step8_to_step5.
  cbn [step8.coefficients step8.std_errors step8.r_squared
       step5.coefficients step5.std_errors].
  lockstep_st; cbn; reflexivity.
Qed.

(** X4: storing the standard errors (question 5) changed nothing in what
    questions 2 and 4 do: on the same X and y both versions of [fit] raise
    the same error or both return, and they leave the same coefficients;
    the statements question 5 adds never raise. *)
Theorem std_errors_step_keeps_coefficients inv X y self :
  inv_contract inv ->
  step2.fit inv X y (step5_to_step2 self)
  = (step5_to_step2 (fst (step5.fit inv X y self)),
     snd (step5.fit inv X y self)).
Proof.
  intros Hinv. run_st. destruct self as [c se]. unfold step5_to_step2.
  cbn [step5.coefficients step5.std_errors step2.coefficients].
  set (X_aug := sm.prepend_ones X).
  destruct (matmul (T X_aug) X_aug) as [G|] eqn:HG; [|reflexivity].
  destruct (inv G) as [V|] eqn:HV; [|reflexivity].
  destruct (matmul V (T X_aug)) as [P|] eqn:HP; [|reflexivity].
  destruct (matvec P y) as [beta|] eqn:Hb; [|reflexivity].
  destruct (normal_equations_shapes inv Hinv _ _ _ _ _ _ HG HV HP Hb)
    as (_ & _ & Lb & Ly).
  cbn [step5.coefficients matvec_attr].
  destruct (matvec_conform X_aug beta) as [yp Hyp]; [congruence|].
  rewrite Hyp. pose proof Hyp as Hyp'. apply matvec_Ok in Hyp' as (_ & Lyp).
  destruct (sub_conform y yp) as (e & He & _); [congruence|].
  rewrite He. reflexivity.
Qed.

Lemma std_errors_step_keeps_coefficients_witness :
  step2.fit gj.inv demo.X demo.y step2.init
  = (step2.mk (Some [2; 2]%float), Ok tt) /\
  step5.fit gj.inv demo.X demo.y step5.init
  = (step5.mk (Some [2; 2]%float) (Some [1; 1]%float), Ok tt).
Proof.
  pose proof (std_errors_step_keeps_coefficients gj.inv demo.X demo.y
                step5.init gj_inv_contract) as H.
  assert (H5 : step5.fit gj.inv demo.X demo.y step5.init
               = (step5.mk (Some [2; 2]%float) (Some [1; 1]%float), Ok tt))
    by (vm_compute; reflexivity).
  rewrite H5 in H. split; [exact H|exact H5].
Defined.

(** ** More on the final class *)

Lemma map_seq_const (f : nat -> float) c n :
  (forall i, i < n -> f i = c) -> map f (seq 0 n) = repeat c n.
Proof.
  induction n as [|n IH]; intros H; [reflexivity|].
  rewrite seq_S, map_app, IH by (intros; apply H; lia).
  cbn [map Nat.add]. rewrite (H n) by lia.
  change [c] with (repeat c 1). rewrite <- repeat_app.
  f_equal. lia.
Qed.

(** [add_constant] leaves alone what it has built. *)
Lemma prepend_ones_skips X :
  0 < shape0 X -> sm.add_constant (sm.prepend_ones X) = Ok (sm.prepend_ones X).
Proof.
  intros Hn. apply (nonzero_const_column_skips _ 0); [cbn; lia|].
  unfold column. cbn [sm.prepend_ones tabulate shape0].
  rewrite (map_seq_const _ 1%float).
  - destruct (shape0 X) as [|n]; [lia|].
    now apply constant_column_is_nonzero_const.
  - intros i Hi. unfold sm.prepend_ones. now rewrite item_tabulate by lia.
Qed.

Lemma design_fixed_point self X X_aug :
  design self X = Ok X_aug -> design self X_aug = Ok X_aug.
Proof.
  unfold design. destruct (fit_intercept self); [|reflexivity].
  intros H. pose proof H as H'.
  apply add_constant_Ok in H' as [[_ ->]|[Hany ->]]; [exact H|].
  apply prepend_ones_skips. unfold sm.any_nonzero_const in Hany.
  destruct (shape0 X); [discriminate|lia].
Qed.

(** Same design matrix, same attributes, same flag: same call. *)
Lemma fit_by_design_eq inv X1 X2 y self :
  design self X1 = design self X2 ->
  fit inv X1 y self = fit inv X2 y self.
Proof. intros H. run. now rewrite !augment_run, H. Qed.

Lemma predict_by_design X1 X2 self1 self2 :
  design self1 X1 = design self2 X2 ->
  coefficients self1 = coefficients self2 ->
  snd (predict X1 self1) = snd (predict X2 self2).
Proof. intros H Hc. rewrite !predict_run. cbn [snd]. now rewrite H, Hc. Qed.



(** X8: what [fit] returns, raises and stores does not depend on what an
    earlier [fit] has stored: two estimators with the same [fit_intercept]
    get the same result on the same X and y, and are equal after a call
    that returns. *)
Theorem fit_forgets_earlier_fit inv X y self1 self2 :
  fit_intercept self1 = fit_intercept self2 ->
  snd (fit inv X y self1) = snd (fit inv X y self2) /\
  (forall y_pred, snd (fit inv X y self1) = Ok y_pred ->
     fst (fit inv X y self1) = fst (fit inv X y self2)).
Proof.
  intros Hfi.
  assert (Hd : design self1 X = design self2 X)
    by (unfold design; now rewrite Hfi).
  run. rewrite !augment_run, Hd.
  lockstep; cbn; rewrite ?Hfi; auto; split; auto; discriminate.
Qed.

Lemma fit_forgets_earlier_fit_witness :
  snd (fit gj.inv demo.X demo.y demo.model) = Ok demo.y_pred /\
  fst (fit gj.inv demo.X demo.y demo.model) = demo.model.
Proof.
  destruct (fit_forgets_earlier_fit gj.inv demo.X demo.y (init true)
              demo.model eq_refl) as [Hr Hs].
  split.
  - rewrite <- Hr. vm_compute. reflexivity.
  - rewrite <- (Hs demo.y_pred ltac:(vm_compute; reflexivity)).
    vm_compute. reflexivity.
Defined.

(** X9: the design matrix [fit] builds from X is left as it is when it is
    passed in turn: [fit] and [predict] do on it exactly what they do
    on X. *)
Theorem design_matrix_is_fixed_point inv X X_aug y self :
  design self X = Ok X_aug ->
  design self X_aug = Ok X_aug /\
  fit inv X_aug y self = fit inv X y self /\
  predict X_aug self = predict X self.
Proof.
  intros H. pose proof (design_fixed_point self X X_aug H) as H'.
  split; [exact H'|]. split.
  - apply fit_by_design_eq. congruence.
  - rewrite !predict_run. now rewrite H, H'.
Qed.

Lemma design_matrix_is_fixed_point_witness :
  design (init true) demo.X = Ok demo.X_aug /\
  design (init true) demo.X_aug = Ok demo.X_aug /\
  fit gj.inv demo.X_aug demo.y (init true)
  = fit gj.inv demo.X demo.y (init true) /\
  predict demo.X_aug (init true) = predict demo.X (init true).
Proof.
  split; [vm_compute; reflexivity|].
  apply (design_matrix_is_fixed_point gj.inv demo.X demo.X_aug demo.y
           (init true)).
  vm_compute; reflexivity.
Defined.

(** X10: an estimator with [fit_intercept] true on X does what one with
    [fit_intercept] false does on the design matrix of X: [fit] returns
    the same fitted values or raises the same error and leaves the same
    three attributes, [predict] returns the same values or raises the same
    error. *)
Theorem intercept_is_manual_augmentation inv X X_aug y self_t self_f :
  fit_intercept self_f = false ->
  of_final self_t = of_final self_f ->
  design self_t X = Ok X_aug ->
  snd (fit inv X y self_t) = snd (fit inv X_aug y self_f) /\
  of_final (fst (fit inv X y self_t))
  = of_final (fst (fit inv X_aug y self_f)) /\
  snd (predict X self_t) = snd (predict X_aug self_f).
Proof.
  intros Hf Ha HX.
  assert (Hd : design self_t X = design self_f X_aug).
  { rewrite HX. unfold design. now rewrite Hf. }
  destruct (fit_by_design_attrs inv X X_aug y self_t self_f Hd Ha)
    as [Hs Hr].
  repeat split; [exact Hr|exact Hs|].
  apply predict_by_design; [exact Hd|]. now injection Ha.
Qed.

Lemma intercept_is_manual_augmentation_witness :
  design (init true) demo.X = Ok demo.X_aug /\
  snd (fit gj.inv demo.X_aug demo.y (init false)) = Ok demo.y_pred /\
  of_final (fst (fit gj.inv demo.X_aug demo.y (init false)))
  = of_final demo.model.
Proof.
  split; [vm_compute; reflexivity|].
  destruct (intercept_is_manual_augmentation gj.inv demo.X demo.X_aug demo.y
              (init true) (init false) eq_refl eq_refl)
    as (Hr & Hs & _); [vm_compute; reflexivity|].
  split.
  - rewrite <- Hr. vm_compute. reflexivity.
  - rewrite <- Hs. vm_compute. reflexivity.
Defined.

(** X11: neither [fit] nor [predict] ever changes [fit_intercept], whether
    they return or raise, and [predict] changes no attribute at all. *)
Theorem fit_intercept_is_never_changed inv X y self :
  fit_intercept (fst (fit inv X y self)) = fit_intercept self /\
  fst (predict X self) = self.
Proof.
  split; [|now rewrite predict_run].
  run. rewrite augment_run. lockstep; reflexivity.
Qed.

(** X12: with [fit_intercept] true, [predict] on a single row raises a
    shape error once [fit] has stored an intercept and one coefficient per
    column: as soon as one entry of the row is a finite non-zero number,
    its column is constant for [add_constant], no column of ones is added
    and the row is one entry short. *)
Theorem predict_single_row_raises X_test j beta self :
  fit_intercept self = true ->
  coefficients self = Some beta ->
  length beta = S (shape1 X_test) ->
  shape0 X_test = 1 -> j < shape1 X_test ->
  is_finite (item X_test 0 j) = true ->
  (item X_test 0 j =? 0)%float = false ->
  predict X_test self = (self, Raise ShapeMismatch).
Proof.
  intros Hfi Hc Lb Hn Hj Hf Hz.
  assert (HX : design self X_test = Ok X_test).
  { unfold design. rewrite Hfi.
    apply (nonzero_const_column_skips X_test j Hj).
    unfold column. rewrite Hn. cbn [seq map].
    now apply (constant_column_is_nonzero_const _ 0). }
  rewrite predict_run, HX, Hc. cbn [matvec_attr]. unfold matvec.
  destruct (Nat.eqb_spec (shape1 X_test) (length beta)); [lia|reflexivity].
Qed.

Lemma predict_single_row_raises_witness :
  snd (step8.predict sample.X_row (of_final demo.model)) = Ok [8]%float /\
  predict sample.X_row demo.model = (demo.model, Raise ShapeMismatch).
Proof.
  split; [vm_compute; reflexivity|].
  apply (predict_single_row_raises sample.X_row 0 [2; 2]%float demo.model);
    solve [reflexivity | cbn; lia | vm_compute; reflexivity].
Defined.

(** X13: with [fit_intercept] true, an X without rows (and at least one
    column) makes both [fit] and [predict] raise in [add_constant], which
    takes the maximum of each column; the estimator is left as it was. *)
Theorem no_rows_raises inv X y self :
  fit_intercept self = true ->
  shape0 X = 0 -> 0 < shape1 X ->
  fit inv X y self = (self, Raise EmptyReduction) /\
  predict X self = (self, Raise EmptyReduction).
Proof.
  intros Hfi Hn _.
  assert (HX : design self X = Raise EmptyReduction).
  { unfold design, sm.add_constant, sm.any_nonzero_const.
    now rewrite Hfi, Hn. }
  split; [|now rewrite predict_run, HX].
  run. now rewrite augment_run, HX.
Qed.

Lemma no_rows_raises_witness :
  fit gj.inv sample.X_empty [] demo.model
  = (demo.model, Raise EmptyReduction) /\
  predict sample.X_empty demo.model = (demo.model, Raise EmptyReduction).
Proof.
  apply (no_rows_raises gj.inv sample.X_empty [] demo.model);
    solve [reflexivity | cbn; lia].
Defined.
